(** * age-gui: the batch worker and its helpers, embedded in Rocq

    The development follows [age_gui.py]: the Python string and path
    primitives the program calls, the file system it probes and mutates,
    the [AgeWorker] thread ([_find_unique_filename], [run]) and the parts
    of [AgeGUI] that decide whether a worker is started
    ([_validate_key_file], [_get_files_recursive], the drop handlers).

    Conventions.  A Python [str] is a [string] whose characters are code
    points below 256.  Paths follow [posixpath].  The file system is a
    finite map from paths to nodes; the content of a file is the text
    that reading it in text mode gives.  The external [age] process and the
    failures of the operating system calls are an environment [Env] over
    which every statement is quantified. *)

From Stdlib Require Import Ascii QArith.
From stdpp Require Import gmap strings pretty list.

(** ** Python string primitives *)

Module Py.

Definition ord (c : ascii) : N := N_of_ascii c.

(** [str.isspace] on one code point below 256. *)
Definition isspace (c : ascii) : bool :=
  let n := ord c in
  ((9 <=? n) && (n <=? 13) || (28 <=? n) && (n <=? 32)
   || (n =? 133) || (n =? 160))%N.

(** [str.lower] on one code point below 256: A-Z and the Latin-1
    capitals (all of 0xC0-0xDE but the multiplication sign). *)
Definition lower_char (c : ascii) : ascii :=
  let n := ord c in
  if ((65 <=? n) && (n <=? 90)
      || (192 <=? n) && (n <=? 222) && negb (n =? 215))%N
  then ascii_of_N (n + 32) else c.

Fixpoint lower (s : string) : string :=
  match s with
  | "" => ""
  | String c s' => String (lower_char c) (lower s')
  end.

Fixpoint lstrip (s : string) : string :=
  match s with
  | "" => ""
  | String c s' => if isspace c then lstrip s' else s
  end.

Definition rstrip (s : string) : string :=
  String.rev (lstrip (String.rev s)).

Definition strip (s : string) : string := rstrip (lstrip s).

Fixpoint startswith (p s : string) : bool :=
  match p, s with
  | "", _ => true
  | String a p', String b s' => if decide (a = b) then startswith p' s' else false
  | String _ _, "" => false
  end.

Definition endswith (suf s : string) : bool :=
  startswith (String.rev suf) (String.rev s).

(** [s.removesuffix(suf)] *)
Definition removesuffix (suf s : string) : string :=
  if endswith suf s
  then String.substring 0 (String.length s - String.length suf) s
  else s.

(** [sub in s] *)
Fixpoint contains (sub s : string) : bool :=
  startswith sub s ||
  match s with
  | "" => false
  | String _ s' => contains sub s'
  end.

Definition is_digit (c : ascii) : bool :=
  let n := ord c in ((48 <=? n) && (n <=? 57))%N.

(** [int(s)] for a string of decimal digits, most significant first. *)
Fixpoint int_digits (acc : nat) (s : string) : nat :=
  match s with
  | "" => acc
  | String c s' => int_digits (10 * acc + (N.to_nat (ord c) - 48)) s'
  end.

Definition int (s : string) : nat := int_digits 0 s.

(** Iterating over a file opened in text mode: the lines, each with its
    terminating newline when it has one. *)
Fixpoint readlines (s : string) : list string :=
  match s with
  | "" => []
  | String c s' =>
      if decide (c = "010"%char) then String c "" :: readlines s'
      else match readlines s' with
           | [] => [String c ""]
           | l :: ls => String c l :: ls
           end
  end.

(** ["".join(l)] *)
Definition join_empty (l : list string) : string :=
  foldr String.append "" l.

End Py.

(** ** [posixpath] *)

Module Path.

(** [(p[:i], p[i:])] for [i = p.rfind('/') + 1]. *)
Fixpoint split_slash (p : string) : string * string :=
  match p with
  | "" => ("", "")
  | String c p' =>
      let '(h, t) := split_slash p' in
      match h with
      | "" => if decide (c = "/"%char) then ("/", p') else ("", String c t)
      | _ => (String c h, t)
      end
  end.

Definition basename (p : string) : string := (split_slash p).2.

Fixpoint all_char (x : ascii) (s : string) : bool :=
  match s with
  | "" => true
  | String c s' => if decide (c = x) then all_char x s' else false
  end.

Fixpoint lstrip_char (x : ascii) (s : string) : string :=
  match s with
  | "" => ""
  | String c s' => if decide (c = x) then lstrip_char x s' else s
  end.

Definition rstrip_char (x : ascii) (s : string) : string :=
  String.rev (lstrip_char x (String.rev s)).

Definition dirname (p : string) : string :=
  let head := (split_slash p).1 in
  if all_char "/" head then head else rstrip_char "/" head.

(** [(s[:j], s[j:])] for [j = s.rfind('.')], and [(s, "")] without a dot. *)
Fixpoint split_dot (s : string) : string * string :=
  match s with
  | "" => ("", "")
  | String c s' =>
      let '(n, e) := split_dot s' in
      match e with
      | "" => if decide (c = "."%char) then ("", s) else (String c n, "")
      | _ => (String c n, e)
      end
  end.

(** [os.path.splitext] of a name without directory part: the extension
    starts at the last dot unless only dots precede it. *)
Definition splitext (filename : string) : string * string :=
  let '(n, e) := split_dot filename in
  match e with
  | "" => (filename, "")
  | _ => if all_char "." n then (filename, "") else (n, e)
  end.

(** [os.path.join(a, b)] *)
Definition join (a b : string) : string :=
  if Py.startswith "/" b then b
  else if decide (a = "") then b
  else if Py.endswith "/" a then a +:+ b
  else a +:+ "/" +:+ b.

End Path.

(** ** The file system and the environment *)

Inductive node :=
| Dir
| File (data : string).

Abbreviation FileSys := (gmap string node).

(** [os.path.exists], [os.path.isfile], [os.path.isdir], [os.path.getsize] *)
Definition path_exists (fs : FileSys) (p : string) : bool :=
  bool_decide (is_Some (fs !! p)).

Definition isfile (fs : FileSys) (p : string) : bool :=
  match fs !! p with Some (File _) => true | _ => false end.

Definition isdir (fs : FileSys) (p : string) : bool :=
  match fs !! p with Some Dir => true | _ => false end.

Definition getsize (fs : FileSys) (p : string) : nat :=
  match fs !! p with Some (File d) => String.length d | _ => 0 end.

(** ** [AgeWorker._find_unique_filename] *)

Module Resolver.

Fixpoint take_digits (s : string) : string * string :=
  match s with
  | "" => ("", "")
  | String c s' =>
      if Py.is_digit c
      then let '(ds, rest) := take_digits s' in (String c ds, rest)
      else ("", s)
  end.

(** [re.search(r' \((\d+)\)$', name)]: the text before the match
    ([name[:match.start()]]) and group 1.  The pattern is anchored at the
    end, where [$] also accepts one final newline, so the match is read
    off the reversed name. *)
Definition search_suffix (name : string) : option (string * string) :=
  let r := String.rev name in
  let r := match r with
           | String c t => if decide (c = "010"%char) then t else r
           | "" => r
           end in
  match r with
  | String c t =>
      if decide (c = ")"%char) then
        let '(ds, rest) := take_digits t in
        match ds, rest with
        | String _ _, String o (String sp before) =>
            if decide (o = "("%char ∧ sp = " "%char)
            then Some (String.rev before, String.rev ds)
            else None
        | _, _ => None
        end
      else None
  | "" => None
  end.

(** [os.path.join(directory, f"{base} ({k}){ext}")] *)
Definition candidate (directory base ext : string) (k : nat) : string :=
  Path.join directory (base +:+ " (" +:+ pretty k +:+ ")" +:+ ext).

(** The [while True] loop, with fuel: [None] when the fuel runs out
    before a free candidate is met. *)
Fixpoint probe (fuel : nat) (fs : FileSys) (cand : nat → string) (k : nat)
  : option string :=
  match fuel with
  | 0 => None
  | S fuel' =>
      if path_exists fs (cand k) then probe fuel' fs cand (S k)
      else Some (cand k)
  end.

(** The directory, the base name without its disambiguator, the
    extension and the first number to try. *)
Definition numbering (path : string) : string * string * string * nat :=
  let directory := Path.dirname path in
  let filename := Path.basename path in
  let '(name, ext) := Path.splitext filename in
  match search_suffix name with
  | Some (before, ds) => (directory, before, ext, Py.int ds + 1)
  | None => (directory, name, ext, 1)
  end.

(** The loop is run with one more step than the file system has
    entries, which is always enough ([probe_enough_fuel]). *)
Definition _find_unique_filename (fs : FileSys) (path : string) : string :=
  if negb (path_exists fs path) then path
  else
    let '(directory, base, ext, start_num) := numbering path in
    default path
      (probe (S (size fs)) fs (candidate directory base ext) start_num).

End Resolver.

(** ** The environment of a worker run

    What [subprocess.Popen(cmd, ...)] followed by
    [communicate(timeout=300)] can do, seen from the worker: the spawn
    raises, the process exits in time with a return code and its decoded
    standard error, or the 300 seconds expire.  The engine is free to
    change the file system; [fs'] is the file system when control is back
    in the worker (for a timeout: after [kill()] and the second
    [communicate()]). *)

Inductive Proc :=
| SpawnError (msg : string)
| Exited (returncode : Z) (stderr : string) (fs' : FileSys)
| TimedOut (stderr : string) (fs' : FileSys).

(** The operating system calls that can raise take their verdict from the
    environment: [Some msg] is the text of the exception.  The engine is
    asked with the index of the file being processed, so that two runs on
    the same command line may differ. *)
Record Env := {
  getpid : nat;
  getcwd : string;
  open_error : FileSys → string → option string;
  read_error : FileSys → string → option string;
  remove_error : FileSys → string → option string;
  rename_error : FileSys → string → string → option string;
  engine : nat → list string → FileSys → Proc
}.

Inductive Mode := encrypt | decrypt.

Global Instance Mode_eq_dec : EqDecision Mode.
Proof. solve_decision. Defined.

(** The worker's own file system calls, logged with the file system they
    were issued on. *)
Inductive Syscall :=
| sys_open_w (path : string)
| sys_remove (path : string)
| sys_rename (src dst : string).

(** What a run leaves behind, in the order it happened: the Qt signals of
    [AgeWorker], the process control and the worker's file system calls. *)
Inductive Event :=
| process_starting (name : string)
| error (file_name msg : string)
| progress_update (fraction : Q)
| finished (success total : nat) (needs_clear : bool)
| popen (cmd : list string)
| kill
| drain
| syscall (call : Syscall) (before : FileSys).

(** The locals of [run] that survive from one loop iteration to the next,
    the file system and the trace.  [temp_decrypt_path] is [None] while the
    name is not bound (['temp_decrypt_path' in locals()] is false). *)
Record State := {
  fs : FileSys;
  trace : list Event;
  success_count : nat;
  temp_recipients_file : option string;
  temp_decrypt_path : option string
}.

Definition emit (e : Event) (st : State) : State :=
  {| fs := fs st; trace := trace st ++ [e];
     success_count := success_count st;
     temp_recipients_file := temp_recipients_file st;
     temp_decrypt_path := temp_decrypt_path st |}.

Definition set_fs (fs' : FileSys) (st : State) : State :=
  {| fs := fs'; trace := trace st;
     success_count := success_count st;
     temp_recipients_file := temp_recipients_file st;
     temp_decrypt_path := temp_decrypt_path st |}.

Definition set_temp_recipients_file (p : string) (st : State) : State :=
  {| fs := fs st; trace := trace st;
     success_count := success_count st;
     temp_recipients_file := Some p;
     temp_decrypt_path := temp_decrypt_path st |}.

Definition set_temp_decrypt_path (p : string) (st : State) : State :=
  {| fs := fs st; trace := trace st;
     success_count := success_count st;
     temp_recipients_file := temp_recipients_file st;
     temp_decrypt_path := Some p |}.

Definition incr_success_count (st : State) : State :=
  {| fs := fs st; trace := trace st;
     success_count := S (success_count st);
     temp_recipients_file := temp_recipients_file st;
     temp_decrypt_path := temp_decrypt_path st |}.

(** ** A state and exception monad for the body of the inner [try] *)

Inductive Result (A : Type) :=
| Ok (a : A)
| Raise (msg : string).
Arguments Ok {A} a.
Arguments Raise {A} msg.

Definition M (A : Type) : Type := State → State * Result A.

Definition ret {A} (a : A) : M A := λ st, (st, Ok a).

Definition raise {A} (msg : string) : M A := λ st, (st, Raise msg).

Definition bind {A B} (m : M A) (k : A → M B) : M B :=
  λ st, match m st with
        | (st', Ok a) => k a st'
        | (st', Raise msg) => (st', Raise msg)
        end.

Definition get : M State := λ st, (st, Ok st).

Definition modify (f : State → State) : M unit := λ st, (f st, Ok tt).

Global Instance M_ret : MRet M := @ret.
Global Instance M_bind : MBind M := λ A B k m, bind m k.

(** [os.remove], [os.rename], [open(path, 'w')] and reading a whole text
    file, each logging the call and raising when the environment says so. *)
Definition os_remove (env : Env) (p : string) : M unit :=
  st ← get;
  modify (emit (syscall (sys_remove p) (fs st)));;
  match remove_error env (fs st) p with
  | Some msg => raise msg
  | None => modify (set_fs (delete p (fs st)))
  end.

Definition os_rename (env : Env) (src dst : string) : M unit :=
  st ← get;
  modify (emit (syscall (sys_rename src dst) (fs st)));;
  match rename_error env (fs st) src dst, fs st !! src with
  | Some msg, _ => raise msg
  | None, None => raise "No such file or directory"
  | None, Some nd => modify (set_fs (<[dst := nd]> (delete src (fs st))))
  end.

Definition open_w (env : Env) (p : string) : M unit :=
  st ← get;
  modify (emit (syscall (sys_open_w p) (fs st)));;
  match open_error env (fs st) p with
  | Some msg => raise msg
  | None => modify (set_fs (<[p := File ""]> (fs st)))
  end.

Definition read_text (env : Env) (fs : FileSys) (p : string) : Result string :=
  match read_error env fs p, fs !! p with
  | Some msg, _ => Raise msg
  | None, Some (File d) => Ok d
  | None, Some Dir => Raise "Is a directory"
  | None, None => Raise "No such file or directory"
  end.

(** ** [AgeWorker.run] *)

Definition nl : string := String "010"%char "".

Module AgeWorker.
Section worker.

(** [os], the engine, and the attributes set by [__init__]. *)
Context (env : Env).
Context (mode : Mode) (keys_to_use : list string) (age_path : string).

(** The temporary recipient list of file [i]. *)
Definition recipients_path (i : nat) (input_path : string) : string :=
  let d := Path.dirname input_path in
  Path.join (if decide (d = "") then getcwd env else d)
    (".temp_recipients_" +:+ pretty (getpid env) +:+ "_" +:+ pretty i
     +:+ ".txt").

Definition output_path_base (input_path : string) : string :=
  if Py.endswith ".age" (Py.lower input_path)
  then Py.removesuffix ".age" input_path
  else input_path +:+ ".decrypted".

Definition decrypt_temp_path (input_path : string) : string :=
  output_path_base input_path +:+ ".temp_decrypted_"
    +:+ pretty (getpid env).

(** The text of one key file without its comment lines, stripped. *)
Definition key_content (text : string) : string :=
  Py.strip
    (Py.join_empty
       (List.filter (λ line, negb (Py.startswith "#" (Py.strip line)))
          (Py.readlines text))).

(** The loop over [keys_to_use] inside [with open(..., 'w') as f]: what
    has been written to [f] and whether reading a key raised. *)
Fixpoint write_keys (fs : FileSys) (keys : list string) (buf : string)
  : string * Result unit :=
  match keys with
  | [] => (buf, Ok tt)
  | key_path :: rest =>
      if negb (path_exists fs key_path) then write_keys fs rest buf
      else
        match read_text env fs key_path with
        | Raise msg => (buf, Raise msg)
        | Ok text =>
            let content := key_content text in
            write_keys fs rest
              (if decide (content = "") then buf else buf +:+ content +:+ nl)
        end
  end.

Definition build_encrypt (i : nat) (input_path : string)
    (cmd : list string) : M (list string) :=
  let temp_output_path := input_path +:+ ".age" in
  let cmd := cmd ++ ["-a"] in
  let cmd := cmd ++ ["-o"; temp_output_path] in
  if decide (keys_to_use = []) then
    raise "Encryption requires at least one recipient public key."
  else
    let trf := recipients_path i input_path in
    modify (set_temp_recipients_file trf);;
    open_w env trf;;
    st ← get;
    let '(buf, r) := write_keys (fs st) keys_to_use "" in
    modify (set_fs (<[trf := File buf]> (fs st)));;
    match r with
    | Raise msg => raise msg
    | Ok _ =>
        st ← get;
        if path_exists (fs st) trf && negb (getsize (fs st) trf =? 0)
        then mret ((cmd ++ ["-R"; trf]) ++ [input_path])
        else raise "No valid recipient public keys provided."
    end.

Definition build_decrypt (input_path : string) (cmd : list string)
  : M (list string) :=
  let cmd := cmd ++ ["-d"] in
  modify (set_temp_decrypt_path (decrypt_temp_path input_path));;
  let cmd := cmd ++ ["-o"; decrypt_temp_path input_path] in
  if decide (keys_to_use = []) then
    raise "Decryption requires at least one identity key."
  else
    let cmd := cmd ++ flat_map (λ key_path, ["-i"; key_path]) keys_to_use in
    mret (cmd ++ [input_path]).

Definition timeout_message : string :=
  "Process timeout (5 minutes limit). Possible age binary hang or pipe issue.".

(** [Popen], [communicate(timeout=300)] and the [TimeoutExpired]
    handler: the return code and the decoded standard error. *)
Definition supervise (i : nat) (cmd : list string) : M (Z * string) :=
  st ← get;
  modify (emit (popen cmd));;
  match engine env i cmd (fs st) with
  | SpawnError msg => raise msg
  | Exited return_code stderr_output fs' =>
      modify (set_fs fs');;
      mret (return_code, stderr_output)
  | TimedOut stderr_output fs' =>
      modify (emit kill);;
      modify (emit drain);;
      modify (set_fs fs');;
      raise timeout_message
  end.

Definition detail_message (return_code : Z) (stderr_output : string)
  : string :=
  let error_msg := Py.strip stderr_output in
  let detail_msg :=
    if decide (error_msg = "")
    then "Failed, exit code: " +:+ pretty return_code
    else error_msg in
  let low := Py.lower error_msg in
  if Py.contains "missing recipients" low then
    "Encryption failed: Missing public recipient key."
  else if Py.contains "no matching keys" low then
    "Decryption failed. Please check the identity keys."
  else if Py.contains "encrypted identity" low then
    "Decryption failed: Identity key is encrypted. Please use an unencrypted key."
  else if Py.contains "error: no secrets provided to decrypt the file" low then
    "Decryption failed: No identity key provided that matches the file."
  else detail_msg.

Definition missing_output_message (temp : string) : string :=
  "Age returned success, but output file not found: " +:+ temp.

Definition on_exit (input_path : string) (return_code : Z)
    (stderr_output : string) : M unit :=
  if decide (return_code = 0%Z) then
    match mode with
    | encrypt => mret tt
    | decrypt =>
        st ← get;
        if path_exists (fs st) (decrypt_temp_path input_path) then
          let expected_output_path := output_path_base input_path in
          let final_output_path :=
            Resolver._find_unique_filename (fs st) expected_output_path in
          os_rename env (decrypt_temp_path input_path) final_output_path
        else raise (missing_output_message (decrypt_temp_path input_path))
    end;;
    modify incr_success_count
  else raise (detail_message return_code stderr_output).

(** The body of the inner [try]. *)
Definition body (i : nat) (input_path : string) : M unit :=
  cmd ← match mode with
        | encrypt => build_encrypt i input_path [age_path]
        | decrypt => build_decrypt input_path [age_path]
        end;
  r ← supervise i cmd;
  on_exit input_path r.1 r.2.

(** [try: os.remove(p)] / [except: pass] *)
Definition try_remove (p : string) (st : State) : State :=
  (os_remove env p st).1.

(** The two clean-up statements of the [finally] block. *)
Definition cleanup (st : State) : State :=
  let st :=
    match temp_recipients_file st with
    | Some p =>
        if bool_decide (p ≠ "") && path_exists (fs st) p
        then try_remove p st else st
    | None => st
    end in
  match mode, temp_decrypt_path st with
  | decrypt, Some p =>
      if path_exists (fs st) p then try_remove p st else st
  | _, _ => st
  end.

(** One turn of the [for] loop: the inner [try], its [except] and its
    [finally]. *)
Definition iteration (total_files i : nat) (input_path : string)
    (st : State) : State :=
  let current_file_name := Path.basename input_path in
  let st := emit (process_starting current_file_name) st in
  let '(st, r) := body i input_path st in
  let st := match r with
            | Raise msg => emit (error current_file_name msg) st
            | Ok _ => st
            end in
  let progress := (Z.of_nat (i + 1) # Pos.of_nat total_files)%Q in
  let st := emit (progress_update progress) st in
  cleanup st.

Fixpoint loop (total_files i : nat) (files : list string) (st : State)
  : State :=
  match files with
  | [] => st
  | input_path :: rest =>
      loop total_files (S i) rest (iteration total_files i input_path st)
  end.

Definition initial (fs0 : FileSys) : State :=
  {| fs := fs0; trace := []; success_count := 0;
     temp_recipients_file := None; temp_decrypt_path := None |}.

(** [run]: nothing outside the inner [try] raises in this model (the
    calls there are [os.path.basename] on a string and signal
    emissions), so the outer handler, which would report a total of 0,
    is not entered. *)
Definition run (files_to_process : list string) (fs0 : FileSys) : State :=
  let processed_files := files_to_process in
  let total_files := length processed_files in
  let needs_clear := bool_decide (mode = encrypt) in
  let st := loop total_files 0 processed_files (initial fs0) in
  emit (finished (success_count st) total_files needs_clear) st.

End worker.
End AgeWorker.

(** ** [AgeGUI]: key validation, file collection and the drop handlers *)

Module AgeGUI.

(** The entries of [STRINGS] the handlers below use. *)
Definition STATUS_READY (n : string) : string :=
  "Ready. Recipient Keys: " +:+ n +:+ ".".
Definition STATUS_LOADED_KEYS (n : nat) : string :=
  "Loaded " +:+ pretty n +:+ " keys.".
Definition STATUS_ENCRYPT_MODE : string := "Encryption Ready".
Definition STATUS_DECRYPT_MODE : string := "Decryption Ready".
Definition STATUS_START_PROCESS (what : string) (n : nat) : string :=
  "Executing " +:+ what +:+ " on " +:+ pretty n +:+ " files...".
Definition STATUS_FINISHED_KEYS (n : nat) : string :=
  "Finished. Keys Used: " +:+ pretty n +:+ ".".
Definition STATUS_PROCESSING_FILE (name : string) : string :=
  "Processing file: " +:+ name.
Definition STATUS_TERMINATED : string := "Operation terminated.".
Definition STATUS_KEY_LOAD_FAIL : string := "Key load failed.".
Definition ERROR_MIXED_FILES : string := "Cannot mix .age and non-.age files.".
Definition ERROR_INVALID_KEY_PATH : string :=
  "Invalid key path or file not found.".
Definition ERROR_AGE_WORKER (msg : string) : string :=
  "Age command failed: " +:+ msg.
Definition ERROR_FILES_FAIL (n : nat) : string :=
  "Failed! " +:+ pretty n +:+ " files failed.".
Definition ERROR_DECRYPT_MULTI : string := "No valid .age files found.".
Definition DROP_FILE_ENCRYPT : string := "Drop Files or Folders for Encryption".
Definition DROP_FILE_DECRYPT : string :=
  "Drop .age Files or Folders for Decryption".
Definition DROP_KEY_PUBLIC : string := "Drop Recipient Public Key(s)".
Definition DROP_KEY_PRIVATE : string := "Drop Identity Private Key(s)".
Definition DROP_FINISHED (s : string) : string := s +:+ " Complete!".
Definition DROP_ERROR (s : string) : string := "Error: " +:+ s.
Definition ERROR_KEY_FORMAT_PUBLIC : string := "Invalid Age PUBLIC key format".
Definition ERROR_KEY_FORMAT_PRIVATE : string :=
  "Invalid Age PRIVATE key format".
Definition STR_FILE_COUNT_READY_DECRYPT (n : nat) : string :=
  pretty n +:+ " file(s) ready for decryption".
(** [STRINGS] has no entry [STR_FILE_COUNT_READY_ENCRYPT]: [strings.get]
    falls back to its default. *)
Definition STR_FILE_COUNT_READY_ENCRYPT (n : nat) : string :=
  pretty n +:+ " file(s) ready".

(** *** [_validate_key_file] *)

(** [[line.strip() for line in f if line.strip() and not
    line.strip().startswith('#')]] *)
Definition content_lines (text : string) : list string :=
  Py.strip <$>
    List.filter
      (λ line, negb (bool_decide (Py.strip line = ""))
               && negb (Py.startswith "#" (Py.strip line)))
      (Py.readlines text).

Definition _validate_key_file (env : Env) (fs : FileSys)
    (file_path key_type : string) : bool :=
  match read_text env fs file_path with
  | Raise _ => false
  | Ok text =>
      match content_lines text with
      | [] => false
      | first_line :: _ =>
          if decide (key_type = "public")
          then Py.startswith "age1" first_line
          else if decide (key_type = "private")
          then Py.startswith "AGE-SECRET-KEY-" first_line
          else false
      end
  end.

(** *** [_get_files_recursive] *)

(** [p.lower().endswith(".age")] *)
Definition is_age (p : string) : bool := Py.endswith ".age" (Py.lower p).

Definition hidden (name : string) : bool := Py.startswith "." name.

(** [walk path] is what [os.walk(path)] yields: the directories under
    [path] with the names of the files in each. *)
Definition _get_files_recursive (fs : FileSys)
    (walk : string → list (string * list string)) (paths : list string)
  : list string :=
  flat_map
    (λ path,
       if hidden (Path.basename path) then []
       else if isfile fs path then [path]
       else if isdir fs path then
         flat_map
           (λ '(root, files),
              Path.join root <$> List.filter (λ f, negb (hidden f)) files)
           (walk path)
       else [])
    paths.

(** *** The window state *)

Inductive DropMode := mode_file | mode_key | mode_finished | mode_error.

Global Instance DropMode_eq_dec : EqDecision DropMode.
Proof. solve_decision. Defined.

(** The arguments of a started [AgeWorker]. *)
Record Worker := {
  w_mode : option Mode;
  w_files : list string;
  w_keys : list string;
  w_age_path : string
}.

(** The attributes of the window and of its drop target that the
    handlers read or write, the workers started so far, the message boxes
    shown and the settings file ([Keys/RememberKeys], [Keys/Paths]).  The
    style sheets, the progress bar and the buttons are left out. *)
Record Gui := {
  keys : list string;
  recipients_keys : list string;
  files_to_process : list string;
  current_action_mode : option Mode;
  _key_pending : bool;
  drop_mode : DropMode;
  drop_text : string;
  count_text : option string;
  drop_disabled : bool;
  status_text : string;
  workers : list Worker;
  dialogs : list string;
  remember_keys : bool;
  saved_paths : string
}.

Definition set_keys (x : list string) (g : Gui) : Gui :=
  {| keys := x;
     recipients_keys := recipients_keys g;
     files_to_process := files_to_process g;
     current_action_mode := current_action_mode g;
     _key_pending := _key_pending g;
     drop_mode := drop_mode g;
     drop_text := drop_text g;
     count_text := count_text g;
     drop_disabled := drop_disabled g;
     status_text := status_text g;
     workers := workers g;
     dialogs := dialogs g;
     remember_keys := remember_keys g;
     saved_paths := saved_paths g |}.

Definition set_recipients_keys (x : list string) (g : Gui) : Gui :=
  {| keys := keys g;
     recipients_keys := x;
     files_to_process := files_to_process g;
     current_action_mode := current_action_mode g;
     _key_pending := _key_pending g;
     drop_mode := drop_mode g;
     drop_text := drop_text g;
     count_text := count_text g;
     drop_disabled := drop_disabled g;
     status_text := status_text g;
     workers := workers g;
     dialogs := dialogs g;
     remember_keys := remember_keys g;
     saved_paths := saved_paths g |}.

Definition set_files_to_process (x : list string) (g : Gui) : Gui :=
  {| keys := keys g;
     recipients_keys := recipients_keys g;
     files_to_process := x;
     current_action_mode := current_action_mode g;
     _key_pending := _key_pending g;
     drop_mode := drop_mode g;
     drop_text := drop_text g;
     count_text := count_text g;
     drop_disabled := drop_disabled g;
     status_text := status_text g;
     workers := workers g;
     dialogs := dialogs g;
     remember_keys := remember_keys g;
     saved_paths := saved_paths g |}.

Definition set_current_action_mode (x : option Mode) (g : Gui) : Gui :=
  {| keys := keys g;
     recipients_keys := recipients_keys g;
     files_to_process := files_to_process g;
     current_action_mode := x;
     _key_pending := _key_pending g;
     drop_mode := drop_mode g;
     drop_text := drop_text g;
     count_text := count_text g;
     drop_disabled := drop_disabled g;
     status_text := status_text g;
     workers := workers g;
     dialogs := dialogs g;
     remember_keys := remember_keys g;
     saved_paths := saved_paths g |}.

Definition set_key_pending (x : bool) (g : Gui) : Gui :=
  {| keys := keys g;
     recipients_keys := recipients_keys g;
     files_to_process := files_to_process g;
     current_action_mode := current_action_mode g;
     _key_pending := x;
     drop_mode := drop_mode g;
     drop_text := drop_text g;
     count_text := count_text g;
     drop_disabled := drop_disabled g;
     status_text := status_text g;
     workers := workers g;
     dialogs := dialogs g;
     remember_keys := remember_keys g;
     saved_paths := saved_paths g |}.

Definition set_drop_mode (x : DropMode) (g : Gui) : Gui :=
  {| keys := keys g;
     recipients_keys := recipients_keys g;
     files_to_process := files_to_process g;
     current_action_mode := current_action_mode g;
     _key_pending := _key_pending g;
     drop_mode := x;
     drop_text := drop_text g;
     count_text := count_text g;
     drop_disabled := drop_disabled g;
     status_text := status_text g;
     workers := workers g;
     dialogs := dialogs g;
     remember_keys := remember_keys g;
     saved_paths := saved_paths g |}.

Definition set_drop_text (x : string) (g : Gui) : Gui :=
  {| keys := keys g;
     recipients_keys := recipients_keys g;
     files_to_process := files_to_process g;
     current_action_mode := current_action_mode g;
     _key_pending := _key_pending g;
     drop_mode := drop_mode g;
     drop_text := x;
     count_text := count_text g;
     drop_disabled := drop_disabled g;
     status_text := status_text g;
     workers := workers g;
     dialogs := dialogs g;
     remember_keys := remember_keys g;
     saved_paths := saved_paths g |}.

Definition set_count_text (x : option string) (g : Gui) : Gui :=
  {| keys := keys g;
     recipients_keys := recipients_keys g;
     files_to_process := files_to_process g;
     current_action_mode := current_action_mode g;
     _key_pending := _key_pending g;
     drop_mode := drop_mode g;
     drop_text := drop_text g;
     count_text := x;
     drop_disabled := drop_disabled g;
     status_text := status_text g;
     workers := workers g;
     dialogs := dialogs g;
     remember_keys := remember_keys g;
     saved_paths := saved_paths g |}.

Definition set_drop_disabled (x : bool) (g : Gui) : Gui :=
  {| keys := keys g;
     recipients_keys := recipients_keys g;
     files_to_process := files_to_process g;
     current_action_mode := current_action_mode g;
     _key_pending := _key_pending g;
     drop_mode := drop_mode g;
     drop_text := drop_text g;
     count_text := count_text g;
     drop_disabled := x;
     status_text := status_text g;
     workers := workers g;
     dialogs := dialogs g;
     remember_keys := remember_keys g;
     saved_paths := saved_paths g |}.

Definition set_status_text (x : string) (g : Gui) : Gui :=
  {| keys := keys g;
     recipients_keys := recipients_keys g;
     files_to_process := files_to_process g;
     current_action_mode := current_action_mode g;
     _key_pending := _key_pending g;
     drop_mode := drop_mode g;
     drop_text := drop_text g;
     count_text := count_text g;
     drop_disabled := drop_disabled g;
     status_text := x;
     workers := workers g;
     dialogs := dialogs g;
     remember_keys := remember_keys g;
     saved_paths := saved_paths g |}.

Definition set_workers (x : list Worker) (g : Gui) : Gui :=
  {| keys := keys g;
     recipients_keys := recipients_keys g;
     files_to_process := files_to_process g;
     current_action_mode := current_action_mode g;
     _key_pending := _key_pending g;
     drop_mode := drop_mode g;
     drop_text := drop_text g;
     count_text := count_text g;
     drop_disabled := drop_disabled g;
     status_text := status_text g;
     workers := x;
     dialogs := dialogs g;
     remember_keys := remember_keys g;
     saved_paths := saved_paths g |}.

Definition set_dialogs (x : list string) (g : Gui) : Gui :=
  {| keys := keys g;
     recipients_keys := recipients_keys g;
     files_to_process := files_to_process g;
     current_action_mode := current_action_mode g;
     _key_pending := _key_pending g;
     drop_mode := drop_mode g;
     drop_text := drop_text g;
     count_text := count_text g;
     drop_disabled := drop_disabled g;
     status_text := status_text g;
     workers := workers g;
     dialogs := x;
     remember_keys := remember_keys g;
     saved_paths := saved_paths g |}.

Definition set_remember_keys (x : bool) (g : Gui) : Gui :=
  {| keys := keys g;
     recipients_keys := recipients_keys g;
     files_to_process := files_to_process g;
     current_action_mode := current_action_mode g;
     _key_pending := _key_pending g;
     drop_mode := drop_mode g;
     drop_text := drop_text g;
     count_text := count_text g;
     drop_disabled := drop_disabled g;
     status_text := status_text g;
     workers := workers g;
     dialogs := dialogs g;
     remember_keys := x;
     saved_paths := saved_paths g |}.

Definition set_saved_paths (x : string) (g : Gui) : Gui :=
  {| keys := keys g;
     recipients_keys := recipients_keys g;
     files_to_process := files_to_process g;
     current_action_mode := current_action_mode g;
     _key_pending := _key_pending g;
     drop_mode := drop_mode g;
     drop_text := drop_text g;
     count_text := count_text g;
     drop_disabled := drop_disabled g;
     status_text := status_text g;
     workers := workers g;
     dialogs := dialogs g;
     remember_keys := remember_keys g;
     saved_paths := x |}.

(** [sep.join(l)] and [s.split(sep)] for a one-character separator. *)
Fixpoint join_sep (sep : string) (l : list string) : string :=
  match l with
  | [] => ""
  | [x] => x
  | x :: rest => x +:+ sep +:+ join_sep sep rest
  end.

Fixpoint split_char (sep : ascii) (s : string) : list string :=
  match s with
  | "" => [""]
  | String c s' =>
      if decide (c = sep) then "" :: split_char sep s'
      else match split_char sep s' with
           | [] => [String c ""]
           | x :: rest => String c x :: rest
           end
  end.

Section handlers.

(** The file system and the directory listing at the time of the event,
    the operating system, and the path found by
    [_get_age_executable_path]. *)
Context (env : Env) (fs : FileSys)
        (walk : string → list (string * list string))
        (age_exe_path : string).

(** [SingleDropTarget.set_mode]; [message] is unused in the modes that
    are entered without one. *)
Definition set_mode (mode : DropMode) (message : string)
    (file_count : option nat) (g : Gui) : Gui :=
  let g := set_count_text None (set_drop_mode mode g) in
  let new_text :=
    match mode with
    | mode_file =>
        if decide (current_action_mode g = Some decrypt)
        then DROP_FILE_DECRYPT else DROP_FILE_ENCRYPT
    | mode_key =>
        if decide (current_action_mode g = Some encrypt)
        then DROP_KEY_PUBLIC else DROP_KEY_PRIVATE
    | mode_finished => DROP_FINISHED message
    | mode_error => DROP_ERROR message
    end in
  let g :=
    match mode, file_count with
    | mode_key, Some n =>
        set_count_text
          (Some (if decide (current_action_mode g = Some encrypt)
                 then STR_FILE_COUNT_READY_ENCRYPT n
                 else STR_FILE_COUNT_READY_DECRYPT n)) g
    | _, _ => g
    end in
  set_drop_text new_text g.

Definition _save_key_settings (keys_to_save : list string) (remember : bool)
    (g : Gui) : Gui :=
  set_saved_paths (if remember then join_sep ";" keys_to_save else "")
    (set_remember_keys remember g).

Definition _reset_state_ui (clear_keys : bool) (g : Gui) : Gui :=
  let g := set_files_to_process [] g in
  let g := set_key_pending false g in
  let g := set_current_action_mode None g in
  let g := set_keys [] g in
  let g := set_drop_disabled false g in
  let g := set_mode mode_file "" None g in
  let g := if clear_keys
           then _save_key_settings [] false (set_recipients_keys [] g)
           else g in
  set_status_text (STATUS_READY (pretty (length (recipients_keys g)))) g.

Definition _load_key_settings (g : Gui) : Gui :=
  let g := set_recipients_keys [] g in
  if remember_keys g then
    let key_paths :=
      List.filter
        (λ p, path_exists fs p && negb (bool_decide (p = ""))
              && _validate_key_file env fs p "public")
        (split_char ";" (saved_paths g)) in
    match key_paths with
    | _ :: _ =>
        set_status_text (STATUS_LOADED_KEYS (length key_paths))
          (set_recipients_keys key_paths g)
    | [] =>
        _save_key_settings [] false (set_status_text (STATUS_READY "0") g)
    end
  else g.

(** [_start_process]: the drop target is disabled and a worker is
    created and started. *)
Definition _start_process (g : Gui) : Gui :=
  let g := set_drop_disabled true g in
  set_workers
    (workers g
     ++ [{| w_mode := current_action_mode g;
            w_files := files_to_process g;
            w_keys := keys g;
            w_age_path := age_exe_path |}]) g.

Definition _on_files_dropped (paths : list string) (g : Gui) : Gui :=
  if _key_pending g then g
  else
    let collected_files := _get_files_recursive fs walk paths in
    let has_age_files := existsb is_age collected_files in
    match collected_files with
    | [] =>
        set_status_text STATUS_TERMINATED
          (set_mode mode_error ERROR_DECRYPT_MULTI None g)
    | _ :: _ =>
        if has_age_files && negb (forallb is_age collected_files) then
          set_status_text STATUS_TERMINATED
            (set_mode mode_error ERROR_MIXED_FILES None g)
        else
          let g := set_files_to_process collected_files g in
          let g := set_current_action_mode
                     (Some (if has_age_files then decrypt else encrypt)) g in
          let total_files := length (files_to_process g) in
          if has_age_files then
            match keys g with
            | [] =>
                let g := set_key_pending true g in
                set_status_text STATUS_DECRYPT_MODE
                  (set_mode mode_key "" (Some total_files) g)
            | _ :: _ =>
                _start_process
                  (set_status_text
                     (STATUS_START_PROCESS "Decryption" total_files) g)
            end
          else
            match recipients_keys g with
            | [] =>
                let g := set_key_pending true g in
                set_status_text STATUS_ENCRYPT_MODE
                  (set_mode mode_key "" (Some total_files) g)
            | _ :: _ =>
                let g := set_keys (recipients_keys g) g in
                _start_process
                  (set_status_text
                     (STATUS_START_PROCESS "Encryption" total_files) g)
            end
    end.

Definition _on_keys_dropped_in_key_mode (paths : list string) (g : Gui)
  : Gui :=
  if negb (_key_pending g) then g
  else
    let key_type :=
      if decide (current_action_mode g = Some encrypt)
      then "public" else "private" in
    let candidates :=
      List.filter (λ p, path_exists fs p && isfile fs p) paths in
    let valid_keys :=
      List.filter (λ p, _validate_key_file env fs p key_type) candidates in
    let invalid_keys :=
      Path.basename <$>
        List.filter (λ p, negb (_validate_key_file env fs p key_type))
          candidates in
    match invalid_keys, valid_keys with
    | _ :: _, _ =>
        let error_key_msg :=
          if decide (key_type = "public")
          then ERROR_KEY_FORMAT_PUBLIC else ERROR_KEY_FORMAT_PRIVATE in
        let g :=
          set_dialogs
            (dialogs g
             ++ [error_key_msg +:+ nl +:+ nl +:+ "Invalid files: "
                 +:+ join_sep ", " invalid_keys]) g in
        set_status_text STATUS_KEY_LOAD_FAIL
          (set_mode mode_key (drop_text g) None g)
    | [], [] =>
        set_drop_disabled false
          (set_status_text STATUS_KEY_LOAD_FAIL
             (set_mode mode_error ERROR_INVALID_KEY_PATH None g))
    | [], _ :: _ =>
        let g := set_keys valid_keys g in
        let g := set_key_pending false g in
        let total_files := length (files_to_process g) in
        let g :=
          match current_action_mode g with
          | Some encrypt =>
              let g := set_recipients_keys valid_keys g in
              set_status_text (STATUS_START_PROCESS "Encryption" total_files)
                (_save_key_settings (recipients_keys g) true g)
          | Some decrypt =>
              set_status_text (STATUS_START_PROCESS "Decryption" total_files) g
          | None => g
          end in
        _start_process g
    end.

Definition _on_process_starting (file_name : string) (g : Gui) : Gui :=
  set_status_text (STATUS_PROCESSING_FILE file_name) g.

(** The closure [report_error] of [_start_process], connected to the
    [error] signal of the worker: one message box. *)
Definition report_error (file_name error_msg : string) (g : Gui) : Gui :=
  let user_msg :=
    if Py.contains "timeout (5 minutes limit)" error_msg then
      "Process timeout (5 minutes limit). Check if 'age' executable is functioning correctly or if the file is too large."
    else ERROR_AGE_WORKER error_msg in
  set_dialogs
    (dialogs g ++ ["File: " +:+ file_name +:+ nl +:+ nl +:+ user_msg]) g.

Definition _on_finished (success total : nat) (needs_clear : bool) (g : Gui)
  : Gui :=
  let g := set_drop_disabled false g in
  if decide (total = 0) then
    _reset_state_ui false
      (set_status_text STATUS_TERMINATED
         (set_mode mode_error STATUS_TERMINATED None g))
  else if decide (success = total) then
    let mode_text_display :=
      if decide (current_action_mode g = Some encrypt)
      then "Encryption" else "Decryption" in
    let key_count :=
      if decide (current_action_mode g = Some encrypt)
      then length (recipients_keys g) else length (keys g) in
    let g := set_mode mode_finished mode_text_display None g in
    let g := set_status_text (STATUS_FINISHED_KEYS key_count) g in
    set_keys [] (set_files_to_process [] g)
  else
    let error_count := total - success in
    _reset_state_ui false
      (set_status_text STATUS_TERMINATED
         (set_mode mode_error (ERROR_FILES_FAIL error_count) None g)).

(** [_clear_keys_action]; [reply] is the answer to the confirmation
    dialog ([true] for Yes). *)
Definition _clear_keys_action (reply : bool) (g : Gui) : Gui :=
  match recipients_keys g with
  | [] => set_status_text (STATUS_READY "0") g
  | _ :: _ => if reply then _reset_state_ui true g else g
  end.

(** [SingleDropTarget.dropEvent] for the local paths [urls] of the drop. *)
Definition dropEvent (urls : list string) (g : Gui) : Gui :=
  match List.filter (path_exists fs) urls with
  | [] => g
  | (_ :: _) as paths =>
      let g :=
        match drop_mode g with
        | mode_finished | mode_error => _reset_state_ui false g
        | _ => g
        end in
      match drop_mode g with
      | mode_file => _on_files_dropped paths g
      | mode_key => _on_keys_dropped_in_key_mode paths g
      | _ => g
      end
  end.

(** The window after [__init__]: the drop target in file mode, and the
    remembered keys loaded from the settings. *)
Definition init (remember : bool) (paths : string) : Gui :=
  _load_key_settings
    {| keys := []; recipients_keys := []; files_to_process := [];
       current_action_mode := None; _key_pending := false;
       drop_mode := mode_file; drop_text := DROP_FILE_ENCRYPT;
       count_text := None; drop_disabled := false;
       status_text := STATUS_READY "0"; workers := []; dialogs := [];
       remember_keys := remember; saved_paths := paths |}.

End handlers.

End AgeGUI.

(** * Vocabulary of the statements *)

(** ** The resolver *)

(** [k] is the first number from [from] on whose candidate is free. *)
Definition first_free (fs : FileSys) (cand : nat → string) (from k : nat)
  : Prop :=
  from ≤ k ∧ fs !! cand k = None ∧ ∀ j, from ≤ j < k → is_Some (fs !! cand j).

Fixpoint digits_only (s : string) : bool :=
  match s with
  | "" => true
  | String c s' => Py.is_digit c && digits_only s'
  end.

(** ** Traces of the worker *)

Definition is_signal (e : Event) : bool :=
  match e with
  | process_starting _ | error _ _ | progress_update _ | finished _ _ _ => true
  | _ => false
  end.

(** The Qt signals of a trace, in order. *)
Definition signals (t : list Event) : list Event := List.filter is_signal t.

(** [st'] continues [st]: the trace grew by [evs]. *)
Definition extends (st st' : State) (evs : list Event) : Prop :=
  trace st' = trace st ++ evs.

(** A worker event is in order, given the paths [T] the worker may
    create and remove: it opens and removes only those, and renames only
    one of those onto a path that the resolver returned and that does not
    exist. *)
Definition event_ok (T : string → Prop) (e : Event) : Prop :=
  match e with
  | syscall (sys_open_w q) _ => T q
  | syscall (sys_remove q) _ => T q
  | syscall (sys_rename src dst) before =>
      T src ∧ before !! dst = None
      ∧ ∃ path, dst = Resolver._find_unique_filename before path
  | _ => True
  end.

Definition is_popen (e : Event) : bool :=
  match e with popen _ => true | _ => false end.



Definition errors_of (t : list Event) : list (string * string) :=
  omap (λ e, match e with error n m => Some (n, m) | _ => None end) t.

(** ** Outcomes of the files of a batch *)

(** What the caller can tell about one file from the signals: no [error]
    signal, or one with a reason. *)
Inductive Outcome :=
| Succeeded
| Failed (reason : string).

Definition is_success (o : Outcome) : bool :=
  match o with Succeeded => true | Failed _ => false end.

Definition successes (os : list Outcome) : nat :=
  length (List.filter is_success os).

Definition fraction (total i : nat) : Q :=
  (Z.of_nat (i + 1) # Pos.of_nat total)%Q.

(** The signals of file [i]: started, failed (or not), progress. *)
Definition file_signals (total i : nat) (input_path : string) (o : Outcome)
  : list Event :=
  process_starting (Path.basename input_path)
  :: match o with
     | Succeeded => []
     | Failed msg => [error (Path.basename input_path) msg]
     end
  ++ [progress_update (fraction total i)].

Fixpoint batch_signals (total i : nat) (files : list string)
    (os : list Outcome) : list Event :=
  match files, os with
  | p :: files', o :: os' =>
      file_signals total i p o ++ batch_signals total (S i) files' os'
  | _, _ => []
  end.

(** The engine exited with code 0 at least once for file [i]. *)
Definition engine_succeeded (env : Env) (i : nat) : Prop :=
  ∃ cmd fs0 err fs1, engine env i cmd fs0 = Exited 0 err fs1.

(** The locals name only paths of [T]. *)
Definition locals_in (T : string → Prop) (st : State) : Prop :=
  (∀ q, temp_recipients_file st = Some q → T q)
  ∧ (∀ q, temp_decrypt_path st = Some q → T q).

(** The outcome of file [i]: how the inner [try] ended. *)
Definition iteration_outcome (env : Env) (mode : Mode)
    (keys_to_use : list string) (age_path : string)
    (i : nat) (p : string) (st : State) : Outcome :=
  match
    (AgeWorker.body env mode keys_to_use age_path i p
       (emit (process_starting (Path.basename p)) st)).2
  with
  | Ok _ => Succeeded
  | Raise msg => Failed msg
  end.

(** The temporary paths of a batch: the recipient list and the temporary
    decrypt output of each of its files. *)
Definition batch_temp (env : Env) (files : list string) (q : string) : Prop :=
  ∃ j p, files !! j = Some p
         ∧ (q = AgeWorker.recipients_path env j p
            ∨ q = AgeWorker.decrypt_temp_path env p).

(** The command line of a decrypt invocation. *)
Definition decrypt_cmd (env : Env) (keys_to_use : list string)
    (age_path input_path : string) : list string :=
  age_path :: "-d" :: "-o" :: AgeWorker.decrypt_temp_path env input_path
  :: (flat_map (λ key_path, ["-i"; key_path]) keys_to_use ++ [input_path]).

(** ** The states the window can reach *)

Section window_states.
Import AgeGUI.

(** One event delivered to the window: a drop, a signal of a worker
    ([process_starting], [error], [finished]), the Clear button, the
    Clear Keys button with the answer to its confirmation. *)
Inductive gui_step : Gui → Gui → Prop :=
| step_drop env fs walk age_exe_path urls g :
    gui_step g (dropEvent env fs walk age_exe_path urls g)
| step_process_starting file_name g :
    gui_step g (_on_process_starting file_name g)
| step_error file_name error_msg g :
    gui_step g (report_error file_name error_msg g)
| step_finished success total needs_clear g :
    gui_step g (_on_finished success total needs_clear g)
| step_clear g :
    gui_step g (_reset_state_ui false g)
| step_clear_keys reply g :
    gui_step g (_clear_keys_action reply g).

Inductive reachable : Gui → Prop :=
| reach_init env fs remember paths :
    reachable (init env fs remember paths)
| reach_step g g' :
    reachable g → gui_step g g' → reachable g'.

(** While the drop target is in file mode no key is awaited. *)
Definition file_mode_not_pending (g : Gui) : Prop :=
  drop_mode g = mode_file → _key_pending g = false.

End window_states.

(** ** Key files *)

(** A stripped line that [_validate_key_file] keeps: neither empty nor a
    comment. *)
Definition significant (line : string) : bool :=
  negb (bool_decide (line = "")) && negb (Py.startswith "#" line).

Definition first_significant_line (text : string) : option string :=
  List.find significant (Py.strip <$> Py.readlines text).

(** A line without its terminating newline. *)
Definition line_body (line : string) : string :=
  if Py.endswith nl line
  then String.substring 0 (String.length line - 1) line
  else line.

(** The key classification as the specification words it: the lines of
    the text as they stand, those that are empty or begin with [#]
    discarded, the first remaining line tested for the prefix of the
    required type. *)
Definition classify_as_stated (env : Env) (fs : FileSys)
    (file_path key_type : string) : bool :=
  match read_text env fs file_path with
  | Raise _ => false
  | Ok text =>
      match
        List.filter
          (λ line, negb (bool_decide (line = ""))
                   && negb (Py.startswith "#" line))
          (line_body <$> Py.readlines text)
      with
      | [] => false
      | first_line :: _ =>
          bool_decide (key_type = "public") && Py.startswith "age1" first_line
          || bool_decide (key_type = "private")
             && Py.startswith "AGE-SECRET-KEY-" first_line
      end
  end.

(** ** Fixtures: environments and file systems to run the model on *)

Definition os_env (pid : nat) (remove_fails : option string)
    (eng : nat → list string → FileSys → Proc) : Env :=
  {| getpid := pid; getcwd := "/work";
     open_error := λ _ _, None; read_error := λ _ _, None;
     remove_error := λ _ _, remove_fails;
     rename_error := λ _ _ _, None;
     engine := eng |}.

(** An engine that cannot be spawned, one that hangs after it has started
    to write the decrypt output, one that exits with code 0 and writes
    nothing, and one that fails with a diagnostic. *)
Definition engine_missing : nat → list string → FileSys → Proc :=
  λ _ _ _, SpawnError "No such file or directory: age".

Definition engine_hangs : nat → list string → FileSys → Proc :=
  λ _ cmd fs,
    match cmd !! 3 with
    | Some out => TimedOut "" (<[out := File "partial"]> fs)
    | None => TimedOut "" fs
    end.

Definition engine_silent : nat → list string → FileSys → Proc :=
  λ _ _ fs, Exited 0 "" fs.

Definition engine_rejects : nat → list string → FileSys → Proc :=
  λ _ _ fs, Exited 1 "age: error: no identity matched any of the recipients" fs.

Definition engine_decrypts : nat → list string → FileSys → Proc :=
  λ _ cmd fs,
    match cmd !! 3 with
    | Some out => Exited 0 "" (<[out := File "plaintext"]> fs)
    | None => Exited 2 "usage" fs
    end.

Definition demo_fs : FileSys :=
  <["in/a.age" := File "ciphertext a"]>
    (<["in/b.age" := File "ciphertext b"]>
       (<["id.txt" := File "AGE-SECRET-KEY-1QQQ"]> ∅)).

Definition c4_fs : FileSys :=
  <["a.txt" := File "one"]> (<["a (2).txt" := File "two"]> ∅).

Definition squatted_fs : FileSys :=
  <["in/a.temp_decrypted_77" := File "somebody else's data"]> demo_fs.

Definition upper_fs : FileSys :=
  <["in/notes.txt.AGE" := File "ciphertext"]>
    (<["id.txt" := File "AGE-SECRET-KEY-1QQQ"]> ∅).

Definition mixed_fs : FileSys :=
  <["in/a.age" := File "ciphertext a"]>
    (<["in/b.txt" := File "plain b"]> ∅).

Definition indented_key_fs : FileSys :=
  <["keys/alice.pub" := File " age1qqqsyyjqcp"]> ∅.

(** ** Messages of the worker *)

(** What the worker reports for a file when it was given no key. *)
Definition no_keys_message (mode : Mode) : string :=
  match mode with
  | encrypt => "Encryption requires at least one recipient public key."
  | decrypt => "Decryption requires at least one identity key."
  end.

Definition no_recipients_message : string :=
  "No valid recipient public keys provided.".

(** The command line of an encrypt invocation. *)
Definition encrypt_cmd (env : Env) (age_path : string) (i : nat)
    (input_path : string) : list string :=
  [age_path; "-a"; "-o"; input_path +:+ ".age"; "-R";
   AgeWorker.recipients_path env i input_path; input_path].

(** ** Further fixtures *)

(** An engine that writes its output to the path given after [-o] of an
    encrypt command line and exits with code 0. *)
Definition engine_encrypts : nat → list string → FileSys → Proc :=
  λ _ cmd fs,
    match cmd !! 3 with
    | Some out => Exited 0 "" (<[out := File "armored"]> fs)
    | None => Exited 2 "usage" fs
    end.

(** A file to encrypt and a recipient file with a comment line. *)
Definition plain_fs : FileSys :=
  <["in/a.txt" := File "hello"]>
    (<["rcpt.pub" := File ("# alice" +:+ nl +:+ "age1qqq" +:+ nl)]> ∅).

(** ** Well-formed workers *)

(** A batch is all [.age] files for a decrypt and has none for an
    encrypt. *)
Definition batch_fits (mode : option Mode) (files : list string) : Prop :=
  (mode = Some decrypt ∧ forallb AgeGUI.is_age files = true)
  ∨ (mode = Some encrypt ∧ existsb AgeGUI.is_age files = false).

(** A worker was given keys, files, and a mode that fits the files. *)
Definition worker_ok (w : AgeGUI.Worker) : Prop :=
  AgeGUI.w_keys w ≠ [] ∧ AgeGUI.w_files w ≠ []
  ∧ batch_fits (AgeGUI.w_mode w) (AgeGUI.w_files w).

(** While the window awaits keys in key mode, the batch it holds is not
    empty and fits its mode. *)
Definition awaiting_ok (g : AgeGUI.Gui) : Prop :=
  AgeGUI.drop_mode g = AgeGUI.mode_key → AgeGUI._key_pending g = true →
  AgeGUI.files_to_process g ≠ []
  ∧ batch_fits (AgeGUI.current_action_mode g) (AgeGUI.files_to_process g).

Definition gui_ok (g : AgeGUI.Gui) : Prop :=
  Forall worker_ok (AgeGUI.workers g) ∧ awaiting_ok g
  ∧ file_mode_not_pending g.

(** A directory with a visible and a hidden file, and its listing. *)
Definition folder_fs : FileSys :=
  <["in" := Dir]>
    (<["in/a.txt" := File "hello"]>
       (<["in/.secret" := File "hidden"]>
          (<["rcpt.pub" := File ("# alice" +:+ nl +:+ "age1qqq" +:+ nl)]> ∅))).

Definition folder_walk (path : string) : list (string * list string) :=
  if decide (path = "in") then [("in", ["a.txt"; ".secret"])] else [].

(** The window after the files [in/a.age] of [demo_fs] were dropped on a
    fresh window: it awaits an identity key. *)
Definition awaiting_identity : AgeGUI.Gui :=
  AgeGUI.dropEvent (os_env 7 None engine_missing) demo_fs (λ _, []) "age"
    ["in/a.age"] (AgeGUI.init (os_env 7 None engine_missing) demo_fs false "").

(** A key file as [age-keygen] writes it, and the same without its
    comment line. *)
Definition keygen_fs : FileSys :=
  <["key.txt" := File (String "#" " created: 2024" +:+ nl
                       +:+ "AGE-SECRET-KEY-1QQQ" +:+ nl)]> ∅.

Definition bare_key_fs : FileSys :=
  <["key.txt" := File ("AGE-SECRET-KEY-1QQQ" +:+ nl)]> ∅.

(** ** The worker's errors in the window *)

(** The window after the [error] signals of a trace were delivered to
    [report_error], in order. *)
Definition deliver_errors (evs : list Event) (g : AgeGUI.Gui) : AgeGUI.Gui :=
  foldl (λ g e, match e with
                | error file_name msg => AgeGUI.report_error file_name msg g
                | _ => g
                end) g evs.

Definition timeout_dialog (file_name : string) : string :=
  "File: " +:+ file_name +:+ nl +:+ nl
  +:+ "Process timeout (5 minutes limit). Check if 'age' executable is functioning correctly or if the file is too large.".
(** * Proofs *)

(** ** Strings *)

Lemma string_length_app (s t : string) :
  String.length (s +:+ t) = String.length s + String.length t.
Proof.
  induction s as [|c s IH]; [done|].
  change (S (String.length (s +:+ t)) = S (String.length s) + String.length t).
  by rewrite IH.
Qed.

Lemma string_app_assoc (s t u : string) : (s +:+ t) +:+ u = s +:+ t +:+ u.
Proof.
  induction s as [|c s IH]; [done|].
  change (String c ((s +:+ t) +:+ u) = String c (s +:+ t +:+ u)).
  by rewrite IH.
Qed.

Lemma string_app_inv_tail (s1 s2 t : string) : s1 +:+ t = s2 +:+ t → s1 = s2.
Proof.
  revert s2. induction s1 as [|c s1 IH]; intros [|c2 s2] H.
  - done.
  - apply (f_equal String.length) in H.
    rewrite !string_length_app in H. simpl in H. lia.
  - apply (f_equal String.length) in H.
    rewrite !string_length_app in H. simpl in H. lia.
  - injection H as -> H. f_equal. by apply IH.
Qed.

Lemma string_app_nonempty_r (s t : string) : t ≠ "" → s +:+ t ≠ "".
Proof. destruct s; [done|]. intros _ [=]. Qed.

(** ** The unique path resolver *)

Section resolver_facts.
Import Resolver.

Lemma path_exists_true (fs : FileSys) p : path_exists fs p = true ↔ is_Some (fs !! p).
Proof. unfold path_exists. apply bool_decide_eq_true. Qed.

Lemma path_exists_false (fs : FileSys) p : path_exists fs p = false ↔ fs !! p = None.
Proof.
  unfold path_exists. rewrite bool_decide_eq_false, eq_None_not_Some. done.
Qed.

(** Every candidate of one numbering is the same prefix followed by
    [base (k)ext]. *)
Lemma join_no_slash a b :
  Py.startswith "/" b = false →
  Path.join a b
  = (if decide (a = "") then ""
     else if Py.endswith "/" a then a else a +:+ "/") +:+ b.
Proof.
  intros Hb. unfold Path.join. rewrite Hb.
  case_decide; [done|].
  destruct (Py.endswith "/" a); [done|]. by rewrite string_app_assoc.
Qed.

Lemma join_slash a b : Py.startswith "/" b = true → Path.join a b = b.
Proof. intros Hb. unfold Path.join. by rewrite Hb. Qed.

Lemma startswith_slash_app b s :
  Py.startswith "/" (b +:+ " (" +:+ s) = Py.startswith "/" (b +:+ " (").
Proof. by destruct b. Qed.

Lemma candidate_prefix d b e :
  ∃ pre, ∀ k,
    candidate d b e k = pre +:+ b +:+ " (" +:+ pretty k +:+ ")" +:+ e.
Proof.
  unfold candidate.
  destruct (Py.startswith "/" (b +:+ " (")) eqn:Hb.
  - exists "". intros k. change ("" +:+ ?x) with x. apply join_slash.
    by rewrite startswith_slash_app.
  - eexists. intros k. apply join_no_slash.
    by rewrite startswith_slash_app.
Qed.

Global Instance candidate_inj d b e : Inj (=) (=) (candidate d b e).
Proof.
  destruct (candidate_prefix d b e) as [pre Hpre].
  intros k1 k2. rewrite !Hpre. intros H.
  do 3 apply (inj (String.app _)) in H.
  apply string_app_inv_tail in H. by apply (inj pretty).
Qed.

Lemma first_free_unique fs cand from k1 k2 :
  first_free fs cand from k1 → first_free fs cand from k2 → k1 = k2.
Proof.
  intros (Hle1 & Hn1 & Hall1) (Hle2 & Hn2 & Hall2).
  destruct (Nat.lt_trichotomy k1 k2) as [Hlt|[->|Hlt]]; [|done|].
  - destruct (Hall2 k1) as [x Hx]; [lia|congruence].
  - destruct (Hall1 k2) as [x Hx]; [lia|congruence].
Qed.

Lemma probe_Some fuel fs cand k p :
  probe fuel fs cand k = Some p →
  ∃ j, first_free fs cand k j ∧ p = cand j.
Proof.
  revert k. induction fuel as [|fuel IH]; intros k; simpl; [done|].
  destruct (path_exists fs (cand k)) eqn:Hex.
  - intros (j & (Hle & Hn & Hall) & ->)%IH. exists j. split; [|done].
    split_and!; [lia|done|]. intros i Hi.
    destruct (decide (i = k)) as [->|]; [by apply path_exists_true|].
    apply Hall. lia.
  - intros [= <-]. exists k. split; [|done].
    split_and!; [lia|by apply path_exists_false|]. intros; lia.
Qed.

Lemma probe_None fuel fs cand k :
  probe fuel fs cand k = None →
  ∀ j, k ≤ j < k + fuel → is_Some (fs !! cand j).
Proof.
  revert k. induction fuel as [|fuel IH]; intros k; simpl; [intros; lia|].
  destruct (path_exists fs (cand k)) eqn:Hex; [|done].
  intros H j Hj. destruct (decide (j = k)) as [->|].
  - by apply path_exists_true.
  - apply (IH _ H). lia.
Qed.

(** A file system with [n] entries cannot hold [n + 1] different
    candidates. *)
Lemma occupied_run_bound (fs : FileSys) (cand : nat → string) k n :
  Inj (=) (=) cand →
  (∀ j, k ≤ j < k + n → is_Some (fs !! cand j)) → n ≤ size fs.
Proof.
  intros Hinj Hall.
  set (X := list_to_set (cand <$> seq k n) : gset string).
  assert (size X = n) as HX.
  { unfold X. rewrite size_list_to_set.
    - by rewrite length_fmap, length_seq.
    - apply NoDup_fmap_2; [done|]. apply NoDup_seq. }
  rewrite <-HX, <-(size_dom fs). apply subseteq_size.
  intros p. unfold X. rewrite elem_of_list_to_set, list_elem_of_fmap.
  intros (j & -> & Hj). apply elem_of_dom, Hall.
  apply elem_of_seq in Hj. lia.
Qed.

(** The loop terminates: one more step than there are entries is enough
    fuel. *)
Lemma probe_enough_fuel (fs : FileSys) (cand : nat → string) k fuel :
  Inj (=) (=) cand → size fs < fuel → is_Some (probe fuel fs cand k).
Proof.
  intros Hinj Hfuel.
  destruct (probe fuel fs cand k) as [p|] eqn:Hp; [by eexists|].
  pose proof (occupied_run_bound fs cand k fuel Hinj (probe_None _ _ _ _ Hp)).
  lia.
Qed.

(** More fuel does not change the answer. *)
Lemma probe_fuel_mono fuel fuel' fs cand k p :
  probe fuel fs cand k = Some p → fuel ≤ fuel' →
  probe fuel' fs cand k = Some p.
Proof.
  revert fuel' k. induction fuel as [|fuel IH]; intros fuel' k; [done|].
  destruct fuel' as [|fuel']; [lia|]. simpl.
  destruct (path_exists fs (cand k)); [|done].
  intros H ?. apply IH; [done|lia].
Qed.

Lemma find_unique_free_path (fs : FileSys) path :
  fs !! path = None → _find_unique_filename fs path = path.
Proof.
  intros H%path_exists_false. unfold _find_unique_filename. by rewrite H.
Qed.

Lemma find_unique_probe (fs : FileSys) path d b e s :
  is_Some (fs !! path) → numbering path = (d, b, e, s) →
  ∃ k, first_free fs (candidate d b e) s k
       ∧ _find_unique_filename fs path = candidate d b e k.
Proof.
  intros H%path_exists_true Hnum. unfold _find_unique_filename.
  rewrite H, Hnum. cbn -[probe].
  destruct (probe_enough_fuel fs (candidate d b e) s (S (size fs)))
    as [p Hp]; [apply _|lia|].
  rewrite Hp. simpl. by apply probe_Some in Hp.
Qed.

Lemma find_unique_not_exists (fs : FileSys) path :
  fs !! _find_unique_filename fs path = None.
Proof.
  destruct (fs !! path) as [nd|] eqn:Hp.
  - destruct (numbering path) as [[[d b] e] s] eqn:Hnum.
    destruct (find_unique_probe fs path d b e s) as (k & (_ & Hk & _) & ->);
      [by eexists|done|done].
  - by rewrite find_unique_free_path.
Qed.

End resolver_facts.

Lemma Resolver_find_unique_not_exists (fs : FileSys) path :
  fs !! Resolver._find_unique_filename fs path = None.
Proof. apply find_unique_not_exists. Qed.

(** ** Reversal, decimal digits and the disambiguator pattern *)

Lemma string_rev_app_acc (s acc : string) :
  String.rev_app s acc = String.rev s +:+ acc.
Proof.
  unfold String.rev. revert acc.
  induction s as [|c s IH]; intros acc; [done|]. simpl.
  rewrite (IH (String c acc)), (IH (String c "")).
  by rewrite string_app_assoc.
Qed.

Lemma string_rev_cons c (s : string) :
  String.rev (String c s) = String.rev s +:+ String c "".
Proof. unfold String.rev at 1. simpl. apply string_rev_app_acc. Qed.

Lemma string_app_nil_r (s : string) : s +:+ "" = s.
Proof.
  induction s as [|c s IH]; [done|].
  change (String c (s +:+ "") = String c s). by rewrite IH.
Qed.

Lemma string_rev_app (s t : string) :
  String.rev (s +:+ t) = String.rev t +:+ String.rev s.
Proof.
  induction s as [|c s IH].
  - change ("" +:+ t) with t. by rewrite string_app_nil_r.
  - change (String c s +:+ t) with (String c (s +:+ t)).
    by rewrite !string_rev_cons, IH, string_app_assoc.
Qed.

Lemma string_rev_involutive (s : string) : String.rev (String.rev s) = s.
Proof.
  induction s as [|c s IH]; [done|].
  by rewrite string_rev_cons, string_rev_app, IH.
Qed.

Lemma digits_only_app (s t : string) :
  digits_only (s +:+ t) = digits_only s && digits_only t.
Proof.
  induction s as [|c s IH]; [done|].
  change (Py.is_digit c && digits_only (s +:+ t)
          = Py.is_digit c && digits_only s && digits_only t).
  by rewrite IH, andb_assoc.
Qed.

Lemma digits_only_rev (s : string) : digits_only (String.rev s) = digits_only s.
Proof.
  induction s as [|c s IH]; [done|].
  rewrite string_rev_cons, digits_only_app, IH. simpl.
  by rewrite andb_true_r, andb_comm.
Qed.

Lemma int_digits_app acc (s t : string) :
  Py.int_digits acc (s +:+ t) = Py.int_digits (Py.int_digits acc s) t.
Proof.
  revert acc. induction s as [|c s IH]; intros acc; [done|].
  change (String c s +:+ t) with (String c (s +:+ t)). simpl. apply IH.
Qed.

Lemma pretty_N_go_app (x : N) (s : string) :
  pretty_N_go x s = pretty_N_go x "" +:+ s.
Proof.
  revert s. induction (N.lt_wf_0 x) as [x _ IH]; intros s.
  destruct (decide (x = 0)%N) as [->|].
  - by rewrite !pretty_N_go_0.
  - rewrite !(pretty_N_go_step x) by lia.
    assert (x `div` 10 < x)%N as Hlt by (apply N.div_lt; lia).
    rewrite (IH _ Hlt (String _ s)), (IH _ Hlt (String _ "")).
    by rewrite string_app_assoc.
Qed.

Lemma pretty_N_char_digit (x : N) :
  (x < 10)%N →
  Py.is_digit (pretty_N_char x) = true
  ∧ N.to_nat (Py.ord (pretty_N_char x)) - 48 = N.to_nat x.
Proof.
  intros Hx.
  assert (x = 0 ∨ x = 1 ∨ x = 2 ∨ x = 3 ∨ x = 4 ∨ x = 5 ∨ x = 6 ∨ x = 7
          ∨ x = 8 ∨ x = 9)%N as Hcases by lia.
  by repeat (destruct Hcases as [->|Hcases]); try subst x.
Qed.

Lemma pretty_N_go_digits (x : N) :
  digits_only (pretty_N_go x "") = true
  ∧ Py.int_digits 0 (pretty_N_go x "") = N.to_nat x.
Proof.
  induction (N.lt_wf_0 x) as [x _ IH].
  destruct (decide (x = 0)%N) as [->|]; [done|].
  rewrite pretty_N_go_step, pretty_N_go_app by lia.
  destruct (IH (x `div` 10)%N) as [IH1 IH2]; [apply N.div_lt; lia|].
  destruct (pretty_N_char_digit (x `mod` 10)%N) as [Hd Hv];
    [apply N.mod_lt; lia|].
  split.
  - rewrite digits_only_app, IH1. simpl. by rewrite Hd.
  - rewrite int_digits_app, IH2.
    change (10 * N.to_nat (x `div` 10)
            + (N.to_nat (Py.ord (pretty_N_char (x `mod` 10))) - 48)
            = N.to_nat x).
    rewrite Hv. pose proof (N.div_mod x 10). lia.
Qed.

Lemma pretty_nat_digits (n : nat) :
  digits_only (pretty n) = true ∧ pretty n ≠ "" ∧ Py.int (pretty n) = n.
Proof.
  unfold pretty, pretty_nat, pretty, pretty_N.
  case_decide as Hn.
  - split_and!; [done..|]. unfold Py.int. simpl. lia.
  - destruct (pretty_N_go_digits (N.of_nat n)) as [H1 H2].
    split_and!; [done| |unfold Py.int; lia].
    rewrite pretty_N_go_step by lia. rewrite pretty_N_go_app.
    apply string_app_nonempty_r. done.
Qed.

Section pattern_facts.
Import Resolver.

Lemma take_digits_app (ds rest : string) :
  digits_only ds = true →
  (match rest with String c _ => Py.is_digit c = false | "" => True end) →
  take_digits (ds +:+ rest) = (ds, rest).
Proof.
  intros Hds Hrest. induction ds as [|c ds IH].
  - change ("" +:+ rest) with rest. destruct rest as [|c r]; [done|].
    simpl. by rewrite Hrest.
  - change (String c ds +:+ rest) with (String c (ds +:+ rest)).
    simpl in *. apply andb_true_iff in Hds as [Hc Hds].
    by rewrite Hc, IH.
Qed.

(** The pattern recognises a printed disambiguator and gives back the
    base name and the number. *)
Lemma search_suffix_printed (b : string) (n : nat) :
  search_suffix (b +:+ " (" +:+ pretty n +:+ ")") = Some (b, pretty n).
Proof.
  destruct (pretty_nat_digits n) as (Hd & Hne & _).
  unfold search_suffix.
  rewrite !string_rev_app.
  change (String.rev ")") with ")". change (String.rev " (") with "( ".
  rewrite !string_app_assoc.
  change (")" +:+ ?x) with (String ")" x). cbv beta iota.
  rewrite decide_False by done. rewrite decide_True by done.
  rewrite take_digits_app; [|by rewrite digits_only_rev|done].
  destruct (String.rev (pretty n)) as [|c r] eqn:Hrev.
  - apply (f_equal String.rev) in Hrev.
    by rewrite string_rev_involutive in Hrev.
  - change ("( " +:+ ?x) with (String "(" (String " " x)). cbv beta iota.
    rewrite decide_True by done.
    by rewrite <-Hrev, !string_rev_involutive.
Qed.

End pattern_facts.

(** ** C4: the unique path resolver *)

Section resolver_claim.
Import Resolver.

Lemma numbering_dirname path d b e s :
  numbering path = (d, b, e, s) → d = Path.dirname path.
Proof.
  unfold numbering. destruct (Path.splitext _) as [name ext].
  destruct (search_suffix name) as [[before ds]|]; by intros [= <- _ _ _].
Qed.

Lemma numbering_printed path b n ext :
  Path.splitext (Path.basename path) = (b +:+ " (" +:+ pretty n +:+ ")", ext) →
  numbering path = (Path.dirname path, b, ext, n + 1).
Proof.
  intros Hsplit. unfold numbering. rewrite Hsplit, search_suffix_printed.
  by destruct (pretty_nat_digits n) as (_ & _ & ->).
Qed.

Lemma numbering_plain path name ext :
  Path.splitext (Path.basename path) = (name, ext) →
  search_suffix name = None →
  numbering path = (Path.dirname path, name, ext, 1).
Proof. intros Hsplit Hs. unfold numbering. by rewrite Hsplit, Hs. Qed.

(** Re-resolving after the returned candidate has been created. *)
Lemma find_unique_again (fs : FileSys) path d b e s k nd :
  is_Some (fs !! path) → numbering path = (d, b, e, s) →
  first_free fs (candidate d b e) s k →
  ∃ k', first_free (<[candidate d b e k := nd]> fs) (candidate d b e) (S k) k'
        ∧ _find_unique_filename (<[candidate d b e k := nd]> fs) path
          = candidate d b e k'
        ∧ (fs !! candidate d b e (S k) = None → k' = S k).
Proof.
  intros Hex Hnum (Hsk & Hfree & Hocc).
  set (fs' := <[candidate d b e k := nd]> fs).
  assert (is_Some (fs' !! path)) as Hex'.
  { unfold fs'. rewrite lookup_insert. case_decide; [by eexists|done]. }
  destruct (find_unique_probe fs' path d b e s Hex' Hnum)
    as (k' & (Hsk' & Hfree' & Hocc') & Hfind).
  assert (k < k') as Hlt.
  { destruct (decide (k' < k)) as [Hlt|].
    - destruct (Hocc k') as [x Hx]; [lia|].
      unfold fs' in Hfree'. rewrite lookup_insert_ne in Hfree'; [congruence|].
      intros ?%(inj _). lia.
    - destruct (decide (k' = k)) as [->|]; [|lia].
      unfold fs' in Hfree'. by rewrite lookup_insert_eq in Hfree'. }
  exists k'. split_and!; [split_and!|done|].
  - lia.
  - done.
  - intros j Hj. apply Hocc'. lia.
  - intros Hnext. destruct (decide (k' = S k)) as [|Hne]; [done|].
    destruct (Hocc' (S k)) as [x Hx]; [lia|].
    unfold fs' in Hx. rewrite lookup_insert_ne in Hx; [congruence|].
    intros ?%(inj _). lia.
Qed.

(** C4 (as amended): [_find_unique_filename] returns a free path
    unchanged; for an existing path it numbers [base (k)ext] in the
    directory of the path, from [N + 1] when the name ends in a
    disambiguator [ (N)] (which it strips) and from 1 otherwise, and
    returns the first candidate that does not exist; the returned path
    never exists; and once the returned candidate has been created,
    resolving the same path again returns the first free candidate with a
    larger number, which is the next number exactly when that next
    candidate was free. *)
Theorem find_unique_filename_resolves (fs : FileSys) (path : string) :
  (fs !! path = None → _find_unique_filename fs path = path)
  ∧ (∀ b n ext,
       Path.splitext (Path.basename path)
       = (b +:+ " (" +:+ pretty n +:+ ")", ext) →
       numbering path = (Path.dirname path, b, ext, n + 1))
  ∧ (∀ name ext,
       Path.splitext (Path.basename path) = (name, ext) →
       search_suffix name = None →
       numbering path = (Path.dirname path, name, ext, 1))
  ∧ (∀ d b e s,
       is_Some (fs !! path) → numbering path = (d, b, e, s) →
       ∃ k, first_free fs (candidate d b e) s k
            ∧ _find_unique_filename fs path = candidate d b e k
            ∧ ∀ nd, ∃ k',
                first_free (<[candidate d b e k := nd]> fs)
                  (candidate d b e) (S k) k'
                ∧ _find_unique_filename (<[candidate d b e k := nd]> fs) path
                  = candidate d b e k'
                ∧ (fs !! candidate d b e (S k) = None ↔ k' = S k))
  ∧ fs !! _find_unique_filename fs path = None.
Proof.
  split_and!.
  - apply find_unique_free_path.
  - apply numbering_printed.
  - apply numbering_plain.
  - intros d b e s Hex Hnum.
    destruct (find_unique_probe fs path d b e s Hex Hnum) as (k & Hk & Hfind).
    exists k. split_and!; [done..|]. intros nd.
    destruct (find_unique_again fs path d b e s k nd Hex Hnum Hk)
      as (k' & Hk' & Hfind' & Hnext).
    exists k'. split_and!; [done..|]. split; [done|].
    intros ->. destruct Hk' as (_ & Hfree' & _).
    rewrite lookup_insert_ne in Hfree'; [done|]. intros ?%(inj _). lia.
  - apply find_unique_not_exists.
Qed.

(** The theorem at work: with [a.txt] and [a (2).txt] present, [a.txt]
    resolves to [a (1).txt], [a (2).txt] to [a (3).txt], and a free path to
    itself. *)
Lemma find_unique_filename_resolves_witness :
  _find_unique_filename c4_fs "b.txt" = "b.txt"
  ∧ numbering "a (2).txt" = ("", "a", ".txt", 3)
  ∧ numbering "a.txt" = ("", "a", ".txt", 1)
  ∧ (∃ k, first_free c4_fs (candidate "" "a" ".txt") 3 k
          ∧ _find_unique_filename c4_fs "a (2).txt" = candidate "" "a" ".txt" k)
  ∧ c4_fs !! _find_unique_filename c4_fs "a.txt" = None.
Proof.
  destruct (find_unique_filename_resolves c4_fs "b.txt") as (H1 & _).
  destruct (find_unique_filename_resolves c4_fs "a (2).txt")
    as (_ & H2 & _ & H4 & _).
  destruct (find_unique_filename_resolves c4_fs "a.txt")
    as (_ & _ & H3 & _ & H5).
  split_and!.
  - apply H1. reflexivity.
  - apply (H2 "a" 2 ".txt"). reflexivity.
  - apply (H3 "a" ".txt"); reflexivity.
  - destruct (H4 "" "a" ".txt" 3) as (k & Hk & Hfind & _);
      [by eexists|reflexivity|]. by exists k.
  - exact H5.
Defined.

(** C4 as stated fails: the suffix does not always advance by exactly
    one.  With [a.txt] and [a (2).txt] present, [a.txt] resolves to
    [a (1).txt]; once that is created, it resolves to [a (3).txt]. *)
Lemma find_unique_filename_skips_taken_numbers :
  ¬ (∀ (fs : FileSys) path d b e s k nd,
       is_Some (fs !! path) → numbering path = (d, b, e, s) →
       _find_unique_filename fs path = candidate d b e k →
       _find_unique_filename (<[candidate d b e k := nd]> fs) path
       = candidate d b e (S k)).
Proof.
  intros H.
  assert (is_Some (c4_fs !! "a.txt")) as H1 by (by eexists).
  assert (numbering "a.txt" = ("", "a", ".txt", 1)) as H2
    by (vm_compute; reflexivity).
  assert (_find_unique_filename c4_fs "a.txt" = candidate "" "a" ".txt" 1)
    as H3 by (vm_compute; reflexivity).
  specialize (H c4_fs "a.txt" "" "a" ".txt" 1 1 (File "") H1 H2 H3).
  vm_compute in H. discriminate H.
Qed.

End resolver_claim.

(** ** The worker: what one step of the monad does to the state *)

Lemma signals_app t1 t2 : signals (t1 ++ t2) = signals t1 ++ signals t2.
Proof. apply List.filter_app. Qed.

Lemma extends_refl st : extends st st [].
Proof. unfold extends. by rewrite app_nil_r. Qed.

Lemma extends_trans st1 st2 st3 evs1 evs2 :
  extends st1 st2 evs1 → extends st2 st3 evs2 →
  extends st1 st3 (evs1 ++ evs2).
Proof. unfold extends. intros H1 H2. by rewrite H2, H1, app_assoc. Qed.

Ltac monad_unfold :=
  unfold mbind, M_bind, bind, mret, M_ret, ret, raise, get, modify in *.

Ltac state_simpl :=
  cbn [fs trace success_count temp_recipients_file temp_decrypt_path
       emit set_fs fst snd set_temp_recipients_file set_temp_decrypt_path
       incr_success_count] in *.

Lemma lookup_delete_None (m : FileSys) p q :
  m !! q = None → delete p m !! q = None.
Proof. intros H. rewrite lookup_delete. by case_decide. Qed.

Ltac solve_gone :=
  first [ by apply lookup_delete_eq
        | by apply path_exists_false
        | apply lookup_delete_None; solve_gone ].

Section worker_facts.
Context (env : Env) (mode : Mode) (keys_to_use : list string)
        (age_path : string).

Local Abbreviation body := (AgeWorker.body env mode keys_to_use age_path).
Local Abbreviation recipients_path := (AgeWorker.recipients_path env).
Local Abbreviation decrypt_temp_path := (AgeWorker.decrypt_temp_path env).

(** Everything the inner [try] can do, in one statement: it emits no
    signal, counts a success exactly when it ends normally, issues only
    calls that are in order, binds the temporary names of this file, and
    ends normally only after the engine has exited with code 0. *)
Lemma body_spec (T : string → Prop) i p st st' r :
  T (recipients_path i p) → T (decrypt_temp_path p) →
  body i p st = (st', r) →
  ∃ evs,
    extends st st' evs ∧ signals evs = [] ∧ Forall (event_ok T) evs
    ∧ success_count st' = success_count st + (if r is Ok _ then 1 else 0)
    ∧ temp_recipients_file st'
      = match mode with
        | encrypt => if decide (keys_to_use = [])
                     then temp_recipients_file st
                     else Some (recipients_path i p)
        | decrypt => temp_recipients_file st
        end
    ∧ temp_decrypt_path st'
      = match mode with
        | encrypt => temp_decrypt_path st
        | decrypt => Some (decrypt_temp_path p)
        end
    ∧ (∀ a, r = Ok a →
         ∃ cmd fs0 err fs1, engine env i cmd fs0 = Exited 0 err fs1).
Proof.
  intros HT1 HT2.
  unfold AgeWorker.body, AgeWorker.build_encrypt, AgeWorker.build_decrypt,
    AgeWorker.supervise, AgeWorker.on_exit, os_rename, open_w, extends.
  monad_unfold. state_simpl.
  intros H.
  repeat (case_match; simplify_eq; state_simpl);
    rewrite <-?app_assoc;
    (first [ exists []; split; [by rewrite app_nil_r|]
           | eexists; split; [reflexivity|] ]);
    (split_and!;
     [ reflexivity
     | repeat constructor; cbn [event_ok];
       eauto using Resolver_find_unique_not_exists
     | lia
     | first [reflexivity | by rewrite decide_True | by rewrite decide_False]
     | reflexivity
     | first [done | intros; eauto 10] ]).
Qed.

Local Abbreviation cleanup := (AgeWorker.cleanup env mode).

(** The clean-up emits no signal, touches no counter and no local, and
    removes only what the locals name. *)
Lemma cleanup_spec (T : string → Prop) st :
  (∀ q, temp_recipients_file st = Some q → T q) →
  (∀ q, temp_decrypt_path st = Some q → T q) →
  ∃ evs,
    extends st (cleanup st) evs ∧ signals evs = [] ∧ Forall (event_ok T) evs
    ∧ success_count (cleanup st) = success_count st
    ∧ temp_recipients_file (cleanup st) = temp_recipients_file st
    ∧ temp_decrypt_path (cleanup st) = temp_decrypt_path st.
Proof.
  intros HT1 HT2.
  unfold AgeWorker.cleanup, AgeWorker.try_remove, os_remove, extends.
  monad_unfold. state_simpl.
  repeat (case_match; simplify_eq; state_simpl);
    rewrite <-?app_assoc;
    (first [ exists []; split; [by rewrite app_nil_r|]
           | eexists; split; [reflexivity|] ]);
    (split_and!;
     [reflexivity | repeat constructor; cbn [event_ok]; eauto | done..]).
Qed.

(** When [os.remove] does not fail, the files the locals name are gone
    after the clean-up. *)
Lemma cleanup_removes st :
  (∀ fs p, remove_error env fs p = None) →
  (∀ q, temp_recipients_file st = Some q → q ≠ "" →
        fs (cleanup st) !! q = None)
  ∧ (∀ q, mode = decrypt → temp_decrypt_path st = Some q →
          fs (cleanup st) !! q = None).
Proof.
  intros Hrm.
  unfold AgeWorker.cleanup, AgeWorker.try_remove, os_remove.
  monad_unfold. state_simpl.
  split; intros q.
  - intros Hq Hne. rewrite Hq, bool_decide_true by done.
    rewrite andb_true_l.
    destruct (path_exists (fs st) q) eqn:Hex; state_simpl;
      rewrite ?Hrm; state_simpl.
    all: repeat (case_match; simplify_eq; state_simpl).
    all: rewrite ?Hrm; state_simpl.
    all: solve_gone.
  - intros -> Hq.
    repeat (case_match; simplify_eq; state_simpl).
    all: try congruence.
    all: try by (rewrite Hrm in *).
    all: rewrite ?Hrm; state_simpl.
    all: solve_gone.
Qed.

End worker_facts.

(** ** One iteration and the whole loop *)

Section iteration_facts.
Context (env : Env) (mode : Mode) (keys_to_use : list string)
        (age_path : string).

Local Abbreviation body := (AgeWorker.body env mode keys_to_use age_path).
Local Abbreviation iteration :=
  (AgeWorker.iteration env mode keys_to_use age_path).
Local Abbreviation loop := (AgeWorker.loop env mode keys_to_use age_path).
Local Abbreviation recipients_path := (AgeWorker.recipients_path env).
Local Abbreviation decrypt_temp_path := (AgeWorker.decrypt_temp_path env).
Local Abbreviation outcome :=
  (iteration_outcome env mode keys_to_use age_path).

Lemma iteration_unfold total i p st :
  iteration total i p st
  = let st1 := emit (process_starting (Path.basename p)) st in
    let st3 := match (body i p st1).2 with
               | Raise msg => emit (error (Path.basename p) msg) (body i p st1).1
               | Ok _ => (body i p st1).1
               end in
    AgeWorker.cleanup env mode (emit (progress_update (fraction total i)) st3).
Proof.
  unfold AgeWorker.iteration. cbv zeta.
  by destruct (body i p _) as [st2 []].
Qed.

Lemma iteration_spec (T : string → Prop) total i p st :
  T (recipients_path i p) → T (decrypt_temp_path p) → locals_in T st →
  ∃ evs,
    extends st (iteration total i p st) evs
    ∧ signals evs = file_signals total i p (outcome i p st)
    ∧ Forall (event_ok T) evs
    ∧ success_count (iteration total i p st)
      = success_count st
        + (if is_success (outcome i p st) then 1 else 0)
    ∧ locals_in T (iteration total i p st)
    ∧ (outcome i p st = Succeeded → engine_succeeded env i).
Proof.
  intros HT1 HT2 [HL1 HL2]. rewrite iteration_unfold. cbv zeta.
  unfold iteration_outcome.
  set (st1 := emit (process_starting (Path.basename p)) st).
  destruct (body i p st1) as [st2 r] eqn:Hbody. cbn [fst snd].
  destruct (body_spec env mode keys_to_use age_path T i p st1 st2 r
              HT1 HT2 Hbody)
    as (evs & Hext & Hsig & Hok & Hcount & Hloc1 & Hloc2 & Hengine).
  set (st3 := match r with
              | Raise msg => emit (error (Path.basename p) msg) st2
              | Ok _ => st2
              end).
  set (st4 := emit (progress_update (fraction total i)) st3).
  assert (locals_in T st4) as [HL1' HL2'].
  { unfold locals_in.
    assert (temp_recipients_file st4 = temp_recipients_file st2
            ∧ temp_decrypt_path st4 = temp_decrypt_path st2) as [-> ->]
      by (unfold st4, st3; by destruct r).
    rewrite Hloc1, Hloc2. unfold st1. state_simpl.
    split; intros q; destruct mode; try case_decide;
      first [by apply HL1 | by apply HL2 | by intros [= <-]]. }
  destruct (cleanup_spec env mode T st4 HL1' HL2')
    as (evs' & Hext' & Hsig' & Hok' & Hcount' & Hloc1' & Hloc2').
  exists ((process_starting (Path.basename p) :: evs)
          ++ match r with
             | Raise msg => [error (Path.basename p) msg]
             | Ok _ => []
             end ++ [progress_update (fraction total i)] ++ evs').
  split_and!.
  - unfold extends in *. rewrite Hext'. unfold st4, st3.
    destruct r; state_simpl; rewrite Hext; unfold st1; state_simpl;
      by rewrite <-?app_assoc.
  - rewrite !signals_app, Hsig'. cbn [signals List.filter is_signal].
    fold (signals evs). rewrite Hsig. by destruct r.
  - repeat (apply Forall_app; split); [by constructor| |by repeat constructor|done].
    destruct r; by repeat constructor.
  - rewrite Hcount'. unfold st4, st3.
    destruct r; state_simpl; rewrite Hcount; unfold st1; by state_simpl.
  - split; intros q; [rewrite Hloc1'|rewrite Hloc2']; auto.
  - destruct r as [a|]; [|done]. intros _. by apply (Hengine a).
Qed.

Lemma successes_cons o os :
  successes (o :: os) = (if is_success o then 1 else 0) + successes os.
Proof. unfold successes. simpl. by destruct (is_success o). Qed.

Lemma loop_spec (T : string → Prop) total files : ∀ i st,
  (∀ j p, files !! j = Some p →
          T (recipients_path (i + j) p) ∧ T (decrypt_temp_path p)) →
  locals_in T st →
  ∃ evs os,
    extends st (loop total i files st) evs
    ∧ length os = length files
    ∧ signals evs = batch_signals total i files os
    ∧ Forall (event_ok T) evs
    ∧ success_count (loop total i files st) = success_count st + successes os
    ∧ locals_in T (loop total i files st)
    ∧ (∀ j, os !! j = Some Succeeded → engine_succeeded env (i + j)).
Proof.
  induction files as [|p files IH]; intros i st HT HL.
  - exists [], []. split_and!;
      first [done | apply extends_refl | (unfold successes; simpl; lia)].
  - destruct (HT 0 p eq_refl) as [HT1 HT2]. rewrite Nat.add_0_r in HT1.
    destruct (iteration_spec T total i p st HT1 HT2 HL)
      as (evs1 & Hext1 & Hsig1 & Hok1 & Hcount1 & HL1 & Heng1).
    set (o := outcome i p st) in *.
    destruct (IH (S i) (iteration total i p st)) as
      (evs2 & os & Hext2 & Hlen & Hsig2 & Hok2 & Hcount2 & HL2 & Heng2);
      [|done|].
    { intros j q Hq. specialize (HT (S j) q Hq).
      by replace (S i + j) with (i + S j) by lia. }
    exists (evs1 ++ evs2), (o :: os). cbn [AgeWorker.loop]. split_and!.
    + by eapply extends_trans.
    + simpl. by rewrite Hlen.
    + rewrite signals_app, Hsig1, Hsig2. done.
    + by apply Forall_app.
    + rewrite Hcount2, Hcount1, successes_cons. lia.
    + done.
    + intros [|j]; simpl.
      * intros [= Ho]. rewrite Nat.add_0_r. by apply Heng1.
      * intros Hj. replace (i + S j) with (S i + j) by lia. by apply Heng2.
Qed.

End iteration_facts.

(** ** The claims about the worker *)

Section run_facts.
Context (env : Env) (mode : Mode) (keys_to_use : list string)
        (age_path : string).

Local Abbreviation run := (AgeWorker.run env mode keys_to_use age_path).
Local Abbreviation loop := (AgeWorker.loop env mode keys_to_use age_path).

Lemma run_spec files fs0 :
  ∃ evs os,
    trace (run files fs0)
    = evs ++ [finished (successes os) (length files)
                (bool_decide (mode = encrypt))]
    ∧ length os = length files
    ∧ signals evs = batch_signals (length files) 0 files os
    ∧ Forall (event_ok (batch_temp env files)) evs
    ∧ (∀ j, os !! j = Some Succeeded → engine_succeeded env j).
Proof.
  destruct (loop_spec env mode keys_to_use age_path (batch_temp env files)
              (length files) files 0 (AgeWorker.initial fs0))
    as (evs & os & Hext & Hlen & Hsig & Hok & Hcount & _ & Heng).
  { intros j p Hp. split; exists j, p; auto. }
  { split; intros q; done. }
  exists evs, os. split_and!; try done.
  unfold AgeWorker.run. cbv zeta. state_simpl.
  rewrite Hext, Hcount. done.
Qed.

End run_facts.







Lemma successes_none os :
  (∀ j, os !! j = Some Succeeded → False) →
  successes os = 0 ∧ Forall (λ o, is_success o = false) os.
Proof.
  induction os as [|o os IH]; intros H; [done|].
  destruct o as [|msg]; [destruct (H 0 eq_refl)|].
  destruct IH as [IH1 IH2]; [intros j Hj; by apply (H (S j))|].
  rewrite successes_cons, IH1. split; [done|by constructor].
Qed.


(** C2: a run over [N] files attempts every file: each file has its start
    notification, its outcome (no error signal, or one error signal for
    that file) and its progress notification, in order, whatever failed
    in it; the final [finished] signal reports the number of files
    without error and the total [N]; and when the engine never exits
    with code 0, that number is 0 and every file has its error signal. *)
Theorem run_attempts_every_file
    (env : Env) (mode : Mode) (keys_to_use : list string) (age_path : string)
    (files : list string) (fs0 : FileSys) :
  ∃ os : list Outcome,
    length os = length files
    ∧ signals (trace (AgeWorker.run env mode keys_to_use age_path files fs0))
      = batch_signals (length files) 0 files os
        ++ [finished (successes os) (length files)
              (bool_decide (mode = encrypt))]
    ∧ (∀ j, os !! j = Some Succeeded → engine_succeeded env j)
    ∧ ((∀ i, ¬ engine_succeeded env i) →
       successes os = 0 ∧ Forall (λ o, is_success o = false) os).
Proof.
  destruct (run_spec env mode keys_to_use age_path files fs0)
    as (evs & os & Ht & Hlen & Hsig & _ & Heng).
  exists os. split_and!; [done| |done|].
  - by rewrite Ht, signals_app, Hsig.
  - intros Hfail. apply successes_none. intros j Hj.
    by apply (Hfail j), Heng.
Qed.

(** ** C1: the ephemeral artifacts of an iteration *)

Lemma join_nonempty a b : b ≠ "" → Path.join a b ≠ "".
Proof.
  intros Hb. unfold Path.join.
  repeat case_match; try done; by apply string_app_nonempty_r.
Qed.

Lemma recipients_path_nonempty env i p :
  AgeWorker.recipients_path env i p ≠ "".
Proof. unfold AgeWorker.recipients_path. by apply join_nonempty. Qed.

Section artifacts.
Context (env : Env) (mode : Mode) (keys_to_use : list string)
        (age_path : string).

Local Abbreviation body := (AgeWorker.body env mode keys_to_use age_path).
Local Abbreviation iteration :=
  (AgeWorker.iteration env mode keys_to_use age_path).

Lemma iteration_temp_gone total i p st :
  (∀ fs q, remove_error env fs q = None) →
  (mode = encrypt → keys_to_use ≠ [] →
   fs (iteration total i p st) !! AgeWorker.recipients_path env i p = None)
  ∧ (mode = decrypt →
     fs (iteration total i p st) !! AgeWorker.decrypt_temp_path env p = None).
Proof.
  intros Hrm. rewrite iteration_unfold. cbv zeta.
  set (st1 := emit (process_starting (Path.basename p)) st).
  destruct (body i p st1) as [st2 r] eqn:Hbody. cbn [fst snd].
  destruct (body_spec env mode keys_to_use age_path (λ _, True) i p st1 st2 r
              I I Hbody) as (evs & _ & _ & _ & _ & Hloc1 & Hloc2 & _).
  set (st4 := emit _ _).
  assert (temp_recipients_file st4 = temp_recipients_file st2
          ∧ temp_decrypt_path st4 = temp_decrypt_path st2) as [Heq1 Heq2]
    by (unfold st4; by destruct r).
  destruct (cleanup_removes env mode st4 Hrm) as [Hgone1 Hgone2].
  split.
  - intros -> Hkeys. apply Hgone1; [|apply recipients_path_nonempty].
    rewrite Heq1, Hloc1. by rewrite decide_False.
  - intros ->. apply Hgone2; [done|]. by rewrite Heq2, Hloc2.
Qed.

End artifacts.


(** ** C7 and C5: a missing output and a timeout *)

Section supervision.
Context (env : Env) (mode : Mode) (keys_to_use : list string)
        (age_path : string).

Local Abbreviation body := (AgeWorker.body env mode keys_to_use age_path).
Local Abbreviation iteration :=
  (AgeWorker.iteration env mode keys_to_use age_path).

(** The builders spawn nothing. *)
Lemma build_no_popen i p st st1 (r : Result (list string)) :
  match mode with
  | encrypt => AgeWorker.build_encrypt env keys_to_use i p [age_path]
  | decrypt => AgeWorker.build_decrypt env keys_to_use p [age_path]
  end st = (st1, r) →
  ∃ evs, extends st st1 evs ∧ Forall (λ e, is_popen e = false) evs
         ∧ signals evs = [] ∧ success_count st1 = success_count st.
Proof.
  unfold AgeWorker.build_encrypt, AgeWorker.build_decrypt, open_w, extends.
  monad_unfold. state_simpl. intros H.
  repeat (case_match; simplify_eq; state_simpl);
    rewrite <-?app_assoc;
    (first [ exists []; split; [by rewrite app_nil_r|]
           | eexists; split; [reflexivity|] ]);
    (split_and!; [by repeat constructor|done|done]).
Qed.

Lemma supervise_timeout i cmd st :
  (∀ c fs, ∃ err fs', engine env i c fs = TimedOut err fs') →
  ∃ st', AgeWorker.supervise env i cmd st = (st', Raise AgeWorker.timeout_message)
         ∧ extends st st' [popen cmd; kill; drain]
         ∧ success_count st' = success_count st.
Proof.
  intros Ht. destruct (Ht cmd (fs st)) as (err & fs' & Heng).
  unfold AgeWorker.supervise, extends. monad_unfold. state_simpl.
  rewrite Heng. state_simpl. eexists. split_and!; [reflexivity| |reflexivity].
  state_simpl. by rewrite <-!app_assoc.
Qed.

(** With an engine that always runs into the timeout, the inner [try]
    either fails before it spawns anything, or spawns, kills, drains and
    raises the timeout diagnostic. *)
Lemma body_timeout i p st st' r :
  (∀ c fs, ∃ err fs', engine env i c fs = TimedOut err fs') →
  body i p st = (st', r) →
  ∃ evs, extends st st' evs ∧ signals evs = []
    ∧ success_count st' = success_count st
    ∧ ((Forall (λ e, is_popen e = false) evs ∧ ∃ msg, r = Raise msg)
       ∨ (r = Raise AgeWorker.timeout_message
          ∧ ∃ pre cmd, evs = pre ++ [popen cmd; kill; drain]
                       ∧ Forall (λ e, is_popen e = false) pre)).
Proof.
  intros Ht. unfold AgeWorker.body. monad_unfold.
  destruct (match mode with
            | encrypt => AgeWorker.build_encrypt env keys_to_use i p [age_path]
            | decrypt => AgeWorker.build_decrypt env keys_to_use p [age_path]
            end st) as [st1 rb] eqn:Hb.
  destruct (build_no_popen i p st st1 rb Hb) as (evs & Hext & Hnp & Hsig & Hc).
  destruct rb as [cmd|msg]; cbv beta iota.
  - destruct (supervise_timeout i cmd st1 Ht) as (st2 & Hs & Hext2 & Hc2).
    rewrite Hs. intros [= <- <-].
    exists (evs ++ [popen cmd; kill; drain]). split_and!.
    + by eapply extends_trans.
    + by rewrite signals_app, Hsig.
    + congruence.
    + right. split; [done|]. by exists evs, cmd.
  - intros [= <- <-]. exists evs. split_and!; try done.
    left. split; [done|by eexists].
Qed.

(** A decrypt whose engine exits with code 0 without leaving the
    temporary output raises the missing-output diagnostic. *)
Lemma body_missing_output i p st err fs1 :
  mode = decrypt → keys_to_use ≠ [] →
  engine env i (decrypt_cmd env keys_to_use age_path p) (fs st)
  = Exited 0 err fs1 →
  fs1 !! AgeWorker.decrypt_temp_path env p = None →
  (body i p st).2
  = Raise (AgeWorker.missing_output_message
             (AgeWorker.decrypt_temp_path env p)).
Proof.
  intros -> Hkeys Heng Hmiss.
  unfold AgeWorker.body, AgeWorker.build_decrypt, AgeWorker.supervise,
    AgeWorker.on_exit.
  monad_unfold. state_simpl. rewrite decide_False by done. state_simpl.
  change (engine env i _ (fs st)) with
    (engine env i (decrypt_cmd env keys_to_use age_path p) (fs st)).
  rewrite Heng. state_simpl.
  apply path_exists_false in Hmiss.
  destruct (decide (0%Z = 0%Z)); [|done]. cbv beta. state_simpl.
  by rewrite Hmiss.
Qed.

End supervision.

Section timeout_claims.
Context (env : Env) (mode : Mode) (keys_to_use : list string)
        (age_path : string).

Local Abbreviation body := (AgeWorker.body env mode keys_to_use age_path).
Local Abbreviation iteration :=
  (AgeWorker.iteration env mode keys_to_use age_path).
Local Abbreviation outcome :=
  (iteration_outcome env mode keys_to_use age_path).

Lemma cleanup_no_popen st :
  ∃ evs, extends st (AgeWorker.cleanup env mode st) evs
         ∧ Forall (λ e, is_popen e = false) evs.
Proof.
  unfold AgeWorker.cleanup, AgeWorker.try_remove, os_remove, extends.
  monad_unfold. state_simpl.
  repeat (case_match; simplify_eq; state_simpl);
    rewrite <-?app_assoc;
    (first [ exists []; split; [by rewrite app_nil_r|]
           | eexists; split; [reflexivity|] ]);
    by repeat constructor.
Qed.

(** The events of an iteration: the start notification, what the inner
    [try] did, the error signal of a failure, the progress notification
    and the clean-up. *)
Lemma iteration_trace total i p st :
  ∃ evsb evsc,
    extends (emit (process_starting (Path.basename p)) st)
      (body i p (emit (process_starting (Path.basename p)) st)).1 evsb
    ∧ Forall (λ e, is_popen e = false) evsc
    ∧ extends st (iteration total i p st)
        (process_starting (Path.basename p) :: evsb
         ++ match outcome i p st with
            | Succeeded => []
            | Failed msg => [error (Path.basename p) msg]
            end ++ progress_update (fraction total i) :: evsc).
Proof.
  rewrite iteration_unfold. cbv zeta. unfold iteration_outcome.
  set (st1 := emit (process_starting (Path.basename p)) st).
  destruct (body i p st1) as [st2 r] eqn:Hbody. cbn [fst snd].
  destruct (body_spec env mode keys_to_use age_path (λ _, True) i p st1 st2 r
              I I Hbody) as (evsb & Hext & _).
  set (st4 := emit _ _).
  destruct (cleanup_no_popen st4) as (evsc & Hextc & Hnp).
  exists evsb, evsc. split_and!; [done..|].
  unfold extends in *. rewrite Hextc. unfold st4.
  destruct r; state_simpl; rewrite Hext; unfold st1; state_simpl;
    by rewrite <-?app_assoc.
Qed.

Lemma extends_unique st st' evs1 evs2 :
  extends st st' evs1 → extends st st' evs2 → evs1 = evs2.
Proof. unfold extends. intros -> H. by apply app_inv_head in H. Qed.

Lemma not_popen_elem evs cmd :
  Forall (λ e, is_popen e = false) evs → popen cmd ∉ evs.
Proof.
  intros H Hin. rewrite Forall_forall in H. by specialize (H _ Hin).
Qed.

Lemma iteration_timeout total i p st evs :
  (∀ c fs, ∃ err fs', engine env i c fs = TimedOut err fs') →
  extends st (iteration total i p st) evs →
  (∃ cmd, popen cmd ∈ evs) →
  outcome i p st = Failed AgeWorker.timeout_message
  ∧ ∃ pre cmd post,
      evs = pre ++ [popen cmd; kill; drain;
                    error (Path.basename p) AgeWorker.timeout_message;
                    progress_update (fraction total i)] ++ post.
Proof.
  intros Ht Hext [cmd Hin].
  destruct (iteration_trace total i p st) as (evsb & evsc & Hb & Hnpc & Hext').
  rewrite (extends_unique _ _ _ _ Hext Hext') in *. clear Hext.
  unfold iteration_outcome in *.
  set (st1 := emit (process_starting (Path.basename p)) st) in *.
  destruct (body i p st1) as [st2 r] eqn:Hbody. cbn [fst snd] in *.
  destruct (body_timeout env mode keys_to_use age_path i p st1 st2 r Ht Hbody)
    as (evsb' & Hb' & _ & _ & Hcase).
  rewrite (extends_unique _ _ _ _ Hb' Hb) in *.
  destruct Hcase as [[Hnp [msg ->]]|[-> (pre & c & -> & Hnp)]].
  - exfalso. apply elem_of_cons in Hin as [?|Hin]; [done|].
    apply elem_of_app in Hin as [Hin|Hin];
      [by apply (not_popen_elem evsb cmd)|].
    simpl in Hin.
    apply elem_of_cons in Hin as [?|Hin]; [done|].
    apply elem_of_cons in Hin as [?|Hin]; [done|].
    by apply (not_popen_elem evsc cmd).
  - split; [done|].
    exists (process_starting (Path.basename p) :: pre), c, evsc.
    simpl. by rewrite <-!app_assoc.
Qed.

End timeout_claims.

(** ** C7 *)

(** C7: when a decrypt invocation exits with code 0 and the temporary
    output file does not exist, the file is recorded as failed, with the
    diagnostic that age returned success but the output file was not
    found, and is not counted as a success. *)
Theorem decrypt_success_without_output_is_failure
    (env : Env) (keys_to_use : list string) (age_path : string)
    (total i : nat) (input_path : string) (st : State)
    (err : string) (fs1 : FileSys) :
  keys_to_use ≠ [] →
  engine env i (decrypt_cmd env keys_to_use age_path input_path) (fs st)
  = Exited 0 err fs1 →
  fs1 !! AgeWorker.decrypt_temp_path env input_path = None →
  let st' :=
    AgeWorker.iteration env decrypt keys_to_use age_path total i input_path st in
  let msg :=
    AgeWorker.missing_output_message
      (AgeWorker.decrypt_temp_path env input_path) in
  iteration_outcome env decrypt keys_to_use age_path i input_path st
  = Failed msg
  ∧ (∃ evs, extends st st' evs
            ∧ signals evs
              = [process_starting (Path.basename input_path);
                 error (Path.basename input_path) msg;
                 progress_update (fraction total i)])
  ∧ success_count st' = success_count st.
Proof.
  intros Hkeys Heng Hmiss st' msg.
  assert (iteration_outcome env decrypt keys_to_use age_path i input_path st
          = Failed msg) as Ho.
  { unfold iteration_outcome.
    by rewrite (body_missing_output env decrypt keys_to_use age_path i
                  input_path _ err fs1). }
  destruct (iteration_spec env decrypt keys_to_use age_path (λ _, True)
              total i input_path st I I)
    as (evs & Hext & Hsig & _ & Hcount & _); [by split|].
  rewrite Ho in Hsig, Hcount. split_and!; [done|by exists evs|].
  unfold st'. rewrite Hcount. simpl. lia.
Qed.

Lemma decrypt_success_without_output_is_failure_witness :
  iteration_outcome (os_env 77 None engine_silent) decrypt ["id.txt"] "age"
    0 "in/a.age" (AgeWorker.initial demo_fs)
  = Failed "Age returned success, but output file not found: in/a.temp_decrypted_77".
Proof.
  refine (proj1 (decrypt_success_without_output_is_failure
            (os_env 77 None engine_silent) ["id.txt"] "age" 2 0 "in/a.age"
            (AgeWorker.initial demo_fs) "" demo_fs _ _ _)).
  - discriminate.
  - reflexivity.
  - vm_compute. reflexivity.
Defined.

(** ** C5 *)

(** C5 (as amended): when the engine invocation of a file does not exit
    within the ceiling, the process is killed and its output drained, the
    file gets exactly one error signal with the fixed timeout diagnostic
    and is not counted as a success, its progress is notified and the loop
    goes on with the next file; and provided [os.remove] does not fail,
    the temporary recipient list and the temporary decrypt output of the
    file do not exist afterwards. *)
Theorem timeout_is_one_failure_and_batch_goes_on
    (env : Env) (mode : Mode) (keys_to_use : list string) (age_path : string)
    (total i : nat) (input_path : string) (rest : list string) (st : State)
    (evs : list Event) :
  let st' :=
    AgeWorker.iteration env mode keys_to_use age_path total i input_path st in
  (∀ c fs, ∃ err fs', engine env i c fs = TimedOut err fs') →
  extends st st' evs →
  (∃ cmd, popen cmd ∈ evs) →
  iteration_outcome env mode keys_to_use age_path i input_path st
  = Failed AgeWorker.timeout_message
  ∧ (∃ pre cmd post,
       evs = pre ++ [popen cmd; kill; drain;
                     error (Path.basename input_path) AgeWorker.timeout_message;
                     progress_update (fraction total i)] ++ post)
  ∧ signals evs
    = [process_starting (Path.basename input_path);
       error (Path.basename input_path) AgeWorker.timeout_message;
       progress_update (fraction total i)]
  ∧ success_count st' = success_count st
  ∧ AgeWorker.loop env mode keys_to_use age_path total i (input_path :: rest) st
    = AgeWorker.loop env mode keys_to_use age_path total (S i) rest st'
  ∧ ((∀ fs q, remove_error env fs q = None) →
     (mode = encrypt → keys_to_use ≠ [] →
      fs st' !! AgeWorker.recipients_path env i input_path = None)
     ∧ (mode = decrypt →
        fs st' !! AgeWorker.decrypt_temp_path env input_path = None)).
Proof.
  intros st' Ht Hext Hin.
  destruct (iteration_timeout env mode keys_to_use age_path total i input_path
              st evs Ht Hext Hin) as [Ho Hshape].
  destruct (iteration_spec env mode keys_to_use age_path (λ _, True)
              total i input_path st I I)
    as (evs' & Hext' & Hsig & _ & Hcount & _); [by split|].
  rewrite (extends_unique _ _ _ _ Hext' Hext) in Hsig.
  rewrite Ho in Hsig, Hcount.
  split_and!; [done|done|done| |done|].
  - unfold st'. rewrite Hcount. simpl. lia.
  - apply iteration_temp_gone.
Qed.

Lemma timeout_is_one_failure_and_batch_goes_on_witness :
  iteration_outcome (os_env 77 None engine_hangs) decrypt ["id.txt"] "age"
    0 "in/a.age" (AgeWorker.initial demo_fs)
  = Failed AgeWorker.timeout_message
  ∧ fs (AgeWorker.iteration (os_env 77 None engine_hangs) decrypt ["id.txt"]
          "age" 2 0 "in/a.age" (AgeWorker.initial demo_fs))
      !! "in/a.temp_decrypted_77" = None.
Proof.
  destruct (timeout_is_one_failure_and_batch_goes_on
              (os_env 77 None engine_hangs) decrypt ["id.txt"] "age" 2 0
              "in/a.age" ["in/b.age"] (AgeWorker.initial demo_fs)
              (trace (AgeWorker.iteration (os_env 77 None engine_hangs)
                        decrypt ["id.txt"] "age" 2 0 "in/a.age"
                        (AgeWorker.initial demo_fs))))
    as (Ho & _ & _ & _ & _ & Hgone).
  - intros c fs. unfold os_env, engine_hangs. simpl.
    destruct (c !! 3); eauto.
  - exact eq_refl.
  - exists (decrypt_cmd (os_env 77 None engine_hangs) ["id.txt"] "age"
              "in/a.age").
    vm_compute. repeat constructor.
  - split; [exact Ho|]. apply Hgone; reflexivity.
Defined.

(** C5 as stated fails: when [os.remove] raises, which the clean-up
    swallows, the temporary decrypt output of a timed-out file stays on
    disk. *)
Lemma timeout_leaves_temp_when_remove_fails :
  ¬ (∀ (env : Env) (mode : Mode) (keys_to_use : list string)
       (age_path : string) (total i : nat) (input_path : string)
       (st : State) (evs : list Event),
       let st' :=
         AgeWorker.iteration env mode keys_to_use age_path total i
           input_path st in
       (∀ c fs, ∃ err fs', engine env i c fs = TimedOut err fs') →
       extends st st' evs →
       (∃ cmd, popen cmd ∈ evs) →
       (mode = encrypt → keys_to_use ≠ [] →
        fs st' !! AgeWorker.recipients_path env i input_path = None)
       ∧ (mode = decrypt →
          fs st' !! AgeWorker.decrypt_temp_path env input_path = None)).
Proof.
  intros H.
  pose (env := os_env 77 (Some "Permission denied") engine_hangs).
  destruct (H env decrypt ["id.txt"] "age" 2 0 "in/a.age"
              (AgeWorker.initial demo_fs)
              (trace (AgeWorker.iteration env decrypt ["id.txt"] "age" 2 0
                        "in/a.age" (AgeWorker.initial demo_fs))))
    as [_ Hd].
  - intros c fs. unfold env, os_env, engine_hangs. simpl.
    destruct (c !! 3); eauto.
  - exact eq_refl.
  - exists (decrypt_cmd env ["id.txt"] "age" "in/a.age").
    vm_compute. repeat constructor.
  - specialize (Hd eq_refl). vm_compute in Hd. discriminate Hd.
Qed.

(** ** Witnesses for C1, C2 and C9 *)


Lemma run_attempts_every_file_witness :
  ∃ os, length os = 2 ∧ successes os = 0
        ∧ Forall (λ o, is_success o = false) os.
Proof.
  destruct (run_attempts_every_file (os_env 77 None engine_missing) decrypt
              ["id.txt"] "age" ["in/a.age"; "in/b.age"] demo_fs)
    as (os & Hlen & _ & _ & Hfail).
  exists os. split; [exact Hlen|].
  apply Hfail. intros i (cmd & fs0 & err & fs1 & Heng). discriminate Heng.
Defined.


(** ** C10: what the worker does to the file system *)

(** C10 (as amended): every file system call of the worker is on the
    temporary paths of the batch: it opens for writing and removes only
    the temporary recipient list or the temporary decrypt output of one
    of the files of the batch, and it renames only such a temporary path,
    onto the path the resolver returned, which does not exist at that
    moment.  So a file that is not at one of those temporary paths is
    never removed, truncated or replaced by the worker. *)
Theorem worker_touches_only_its_temp_paths
    (env : Env) (mode : Mode) (keys_to_use : list string) (age_path : string)
    (files : list string) (fs0 : FileSys) :
  Forall (event_ok (batch_temp env files))
    (trace (AgeWorker.run env mode keys_to_use age_path files fs0)).
Proof.
  destruct (run_spec env mode keys_to_use age_path files fs0)
    as (evs & os & Ht & _ & _ & Hok & _).
  rewrite Ht. apply Forall_app. split; [done|]. by repeat constructor.
Qed.

(** C10 as stated fails: a file that was at the temporary decrypt path
    before the batch began is removed by the clean-up, although the worker
    did not create it. *)
Lemma preexisting_temp_file_is_removed :
  ¬ (∀ (env : Env) (mode : Mode) (keys_to_use : list string)
       (age_path : string) (files : list string) (fs0 before : FileSys)
       (q : string),
       is_Some (fs0 !! q) →
       syscall (sys_remove q) before
       ∉ trace (AgeWorker.run env mode keys_to_use age_path files fs0)).
Proof.
  intros H.
  apply (H (os_env 77 None engine_rejects) decrypt ["id.txt"] "age"
           ["in/a.age"] squatted_fs squatted_fs "in/a.temp_decrypted_77").
  - by eexists.
  - vm_compute. repeat constructor.
Qed.

(** ** C3: the output path of a decrypt *)

(** C3 at [in/notes.txt.AGE]: the file counts as carrying the extension
    (the test lowers the name), but [removesuffix] compares exactly and
    strips nothing, so the intended output path is the input path itself,
    neither stripped nor suffixed with [.decrypted]; the decrypted text
    ends up in [in/notes.txt (1).AGE]. *)
Theorem decrypt_output_keeps_uppercase_extension :
  Py.endswith ".age" (Py.lower "in/notes.txt.AGE") = true
  ∧ AgeWorker.output_path_base "in/notes.txt.AGE" = "in/notes.txt.AGE"
  ∧ fs (AgeWorker.run (os_env 77 None engine_decrypts) decrypt ["id.txt"]
          "age" ["in/notes.txt.AGE"] upper_fs)
    = <["in/notes.txt (1).AGE" := File "plaintext"]> upper_fs.
Proof. split_and!; vm_compute; reflexivity. Qed.

(** ** The window: which states it can be in *)

Section gui_facts.
Import AgeGUI.

Ltac gui_unfold :=
  unfold file_mode_not_pending, dropEvent, _on_files_dropped,
    _on_keys_dropped_in_key_mode, _on_finished, _clear_keys_action,
    _reset_state_ui, _load_key_settings, _save_key_settings, _start_process,
    _on_process_starting, report_error, set_mode, init in *.

Ltac gui_simpl :=
  cbn [keys recipients_keys files_to_process current_action_mode _key_pending
       drop_mode drop_text count_text drop_disabled status_text workers
       dialogs remember_keys saved_paths
       set_keys set_recipients_keys set_files_to_process
       set_current_action_mode set_key_pending set_drop_mode set_drop_text
       set_count_text set_drop_disabled set_status_text set_workers
       set_dialogs set_remember_keys set_saved_paths] in *.

Lemma gui_step_invariant g g' :
  file_mode_not_pending g → gui_step g g' → file_mode_not_pending g'.
Proof.
  intros Hinv Hstep. destruct Hstep; gui_unfold; gui_simpl;
    repeat (case_match; simplify_eq; gui_simpl); try done;
    try (intros; first [congruence | discriminate (Hinv eq_refl)
                        | by apply Hinv]).
Qed.

Lemma reachable_invariant g : reachable g → file_mode_not_pending g.
Proof.
  induction 1 as [env fs remember paths|g g' _ IH Hstep].
  - unfold init; gui_unfold; gui_simpl. repeat (case_match; gui_simpl); done.
  - by eapply gui_step_invariant.
Qed.

End gui_facts.

(** ** C6: a mixed drop *)

Section mixed_drop.
Import AgeGUI.

Lemma on_files_dropped_mixed fs walk age_exe_path paths g :
  _key_pending g = false →
  existsb is_age (_get_files_recursive fs walk paths) = true →
  forallb is_age (_get_files_recursive fs walk paths) = false →
  _on_files_dropped fs walk age_exe_path paths g
  = set_status_text STATUS_TERMINATED
      (set_mode mode_error ERROR_MIXED_FILES None g).
Proof.
  intros Hp Hany Hall. unfold _on_files_dropped. rewrite Hp, Hany, Hall.
  by destruct (_get_files_recursive fs walk paths).
Qed.

Lemma reset_state_ui_file_mode clear_keys g :
  drop_mode (_reset_state_ui clear_keys g) = mode_file
  ∧ _key_pending (_reset_state_ui clear_keys g) = false
  ∧ workers (_reset_state_ui clear_keys g) = workers g.
Proof. by destruct clear_keys. Qed.

(** C6: a drop of files, on a window in any state it can reach other
    than the one where it awaits a key, whose collected files mix names
    that end in [.age] with names that do not, is rejected: the drop
    target shows the mixed-files error, the status is "Operation
    terminated.", and the list of started workers is what it was, so no
    [age] process is run for any of the files. *)
Theorem mixed_drop_is_rejected
    (env : Env) (fs : FileSys) (walk : string → list (string * list string))
    (age_exe_path : string) (urls : list string) (g : Gui) :
  reachable g →
  drop_mode g ≠ mode_key →
  existsb is_age
    (_get_files_recursive fs walk (List.filter (path_exists fs) urls)) = true →
  forallb is_age
    (_get_files_recursive fs walk (List.filter (path_exists fs) urls)) = false →
  workers (dropEvent env fs walk age_exe_path urls g) = workers g
  ∧ drop_mode (dropEvent env fs walk age_exe_path urls g) = mode_error
  ∧ drop_text (dropEvent env fs walk age_exe_path urls g)
    = DROP_ERROR ERROR_MIXED_FILES
  ∧ status_text (dropEvent env fs walk age_exe_path urls g)
    = STATUS_TERMINATED.
Proof.
  intros Hr Hmode Hany Hall. apply reachable_invariant in Hr.
  unfold dropEvent.
  destruct (List.filter (path_exists fs) urls) as [|p paths] eqn:Hpaths;
    [done|].
  destruct (reset_state_ui_file_mode false g) as (Hm & Hp & Hw).
  destruct (drop_mode g) eqn:Hdm; try done.
  - rewrite Hdm, on_files_dropped_mixed by auto. done.
  - rewrite Hm, on_files_dropped_mixed by auto. split; [|done].
    by rewrite <-Hw.
  - rewrite Hm, on_files_dropped_mixed by auto. split; [|done].
    by rewrite <-Hw.
Qed.

End mixed_drop.

Lemma mixed_drop_is_rejected_witness :
  let g := AgeGUI.init (os_env 7 None engine_missing) mixed_fs false "" in
  let g' :=
    AgeGUI.dropEvent (os_env 7 None engine_missing) mixed_fs (λ _, []) "age"
      ["in/a.age"; "in/b.txt"] g in
  AgeGUI.workers g' = [] ∧ AgeGUI.drop_mode g' = AgeGUI.mode_error
  ∧ AgeGUI.drop_text g' = "Error: Cannot mix .age and non-.age files."
  ∧ AgeGUI.status_text g' = "Operation terminated.".
Proof.
  apply (mixed_drop_is_rejected (os_env 7 None engine_missing) mixed_fs
           (λ _, []) "age" ["in/a.age"; "in/b.txt"]
           (AgeGUI.init (os_env 7 None engine_missing) mixed_fs false "")).
  - apply reach_init.
  - vm_compute. discriminate.
  - vm_compute. reflexivity.
  - vm_compute. reflexivity.
Defined.

(** ** C8: key validation *)

Section key_validation.
Import AgeGUI.

Lemma content_lines_head text :
  head (content_lines text) = first_significant_line text.
Proof.
  unfold content_lines, first_significant_line, significant.
  induction (Py.readlines text) as [|l ls IH]; [done|].
  cbn [List.filter fmap list_fmap List.find].
  destruct (negb (bool_decide (Py.strip l = ""))
            && negb (Py.startswith "#" (Py.strip l))); [done|apply IH].
Qed.

(** C8 (as amended): [_validate_key_file] returns [False] when the file
    cannot be read; otherwise it strips the white space around every line
    of the text, takes the first stripped line that is neither empty nor
    begins with [#], and returns whether that line begins with [age1] for
    the key type [public], with [AGE-SECRET-KEY-] for the key type
    [private]; it returns [False] for any other key type and when no such
    line remains. *)
Theorem validate_key_file_classifies
    (env : Env) (fs : FileSys) (file_path key_type : string) :
  _validate_key_file env fs file_path key_type =
  match read_text env fs file_path with
  | Raise _ => false
  | Ok text =>
      match first_significant_line text with
      | None => false
      | Some line =>
          bool_decide (key_type = "public") && Py.startswith "age1" line
          || bool_decide (key_type = "private")
             && Py.startswith "AGE-SECRET-KEY-" line
      end
  end.
Proof.
  unfold _validate_key_file.
  destruct (read_text env fs file_path) as [text|msg]; [|done].
  rewrite <-content_lines_head.
  destruct (content_lines text) as [|first_line rest]; [done|].
  cbn [head].
  destruct (decide (key_type = "public")) as [->|Hpub].
  - by rewrite orb_false_r.
  - rewrite (bool_decide_eq_false_2 _ Hpub). cbn [andb orb].
    destruct (decide (key_type = "private")) as [->|Hpriv]; [done|].
    by rewrite (bool_decide_eq_false_2 _ Hpriv).
Qed.

End key_validation.

(** The classification as C8 words it disagrees with the code on a key
    file whose key line is indented: the code strips the line and accepts
    it as a public key, the stated rule finds a first line that does not
    begin with the prefix. *)
Lemma validate_key_file_strips_lines :
  ¬ (∀ (env : Env) (fs : FileSys) (file_path key_type : string),
       AgeGUI._validate_key_file env fs file_path key_type
       = classify_as_stated env fs file_path key_type).
Proof.
  intros H.
  specialize (H (os_env 7 None engine_missing) indented_key_fs
                "keys/alice.pub" "public").
  vm_compute in H. discriminate H.
Qed.

(** * Further properties of the code *)

(** ** Strings: prefixes, suffixes and the parts of a path *)

Lemma string_app_cons c (s t : string) : String c s +:+ t = String c (s +:+ t).
Proof. done. Qed.

Lemma startswith_app (a s t : string) :
  Py.startswith a s = true → Py.startswith a (s +:+ t) = true.
Proof.
  revert s. induction a as [|c a IH]; intros [|c' s]; try done.
  rewrite string_app_cons. cbn [Py.startswith].
  case_decide; [apply IH|done].
Qed.

Lemma startswith_refl (a : string) : Py.startswith a a = true.
Proof.
  induction a as [|c a IH]; [done|]. cbn [Py.startswith].
  by case_decide.
Qed.

Lemma endswith_app (suf s t : string) :
  Py.endswith suf t = true → Py.endswith suf (s +:+ t) = true.
Proof.
  unfold Py.endswith. rewrite string_rev_app. apply startswith_app.
Qed.

Lemma endswith_refl (s : string) : Py.endswith s s = true.
Proof. apply startswith_refl. Qed.

Lemma split_slash_app (p : string) :
  p = (Path.split_slash p).1 +:+ (Path.split_slash p).2.
Proof.
  induction p as [|c p IH]; [done|]. cbn [Path.split_slash].
  destruct (Path.split_slash p) as [h t]. cbn [fst snd] in *.
  destruct h as [|c' h].
  - case_decide; cbn [fst snd]; [by subst|].
    change ("" +:+ ?x) with x in *. by rewrite IH at 1.
  - cbn [fst snd]. rewrite string_app_cons. by rewrite IH at 1.
Qed.

Lemma split_dot_app (s : string) :
  s = (Path.split_dot s).1 +:+ (Path.split_dot s).2.
Proof.
  induction s as [|c s IH]; [done|]. cbn [Path.split_dot].
  destruct (Path.split_dot s) as [n e]. cbn [fst snd] in *.
  destruct e as [|c' e].
  - case_decide; cbn [fst snd]; [done|].
    rewrite string_app_cons. by rewrite IH at 1.
  - cbn [fst snd]. rewrite string_app_cons. by rewrite IH at 1.
Qed.

Lemma splitext_app (filename name ext : string) :
  Path.splitext filename = (name, ext) → filename = name +:+ ext.
Proof.
  unfold Path.splitext. pose proof (split_dot_app filename) as Happ.
  destruct (Path.split_dot filename) as [n e]. cbn [fst snd] in Happ.
  destruct e as [|c e].
  - intros [= <- <-]. by rewrite string_app_nil_r.
  - destruct (Path.all_char "." n); intros [= <- <-]; [|done].
    by rewrite string_app_nil_r.
Qed.

(** ** The resolver: extension, bound, stability *)

Section resolver_more.
Import Resolver.

Lemma candidate_endswith d b e k : Py.endswith e (candidate d b e k) = true.
Proof.
  destruct (candidate_prefix d b e) as [pre ->].
  do 5 apply endswith_app. apply endswith_refl.
Qed.

(** X1: the path [_find_unique_filename] returns ends in the extension of
    the path it was asked for, whether it had to number the name or
    not. *)
Theorem find_unique_filename_keeps_extension
    (fs : FileSys) (path name ext : string) :
  Path.splitext (Path.basename path) = (name, ext) →
  Py.endswith ext (_find_unique_filename fs path) = true.
Proof.
  intros Hsplit. destruct (fs !! path) as [nd|] eqn:Hp.
  - destruct (numbering path) as [[[d b] e] s] eqn:Hn.
    destruct (find_unique_probe fs path d b e s) as (k & _ & ->);
      [done..|].
    assert (e = ext) as ->; [|apply candidate_endswith].
    unfold numbering in Hn. rewrite Hsplit in Hn.
    destruct (search_suffix name) as [[before ds]|]; by simplify_eq.
  - rewrite find_unique_free_path by done.
    rewrite (split_slash_app path). apply endswith_app.
    fold (Path.basename path). rewrite (splitext_app _ _ _ Hsplit).
    apply endswith_app, endswith_refl.
Qed.

(** X2: the number [_find_unique_filename] settles on is at most the first
    number it tries plus the number of entries of the file system: the
    [while True] loop probes at most that many taken candidates. *)
Theorem find_unique_filename_number_bound
    (fs : FileSys) (path d b e : string) (s : nat) :
  is_Some (fs !! path) → numbering path = (d, b, e, s) →
  ∃ k, s ≤ k ≤ s + size fs
       ∧ _find_unique_filename fs path = candidate d b e k.
Proof.
  intros Hp Hn.
  destruct (find_unique_probe fs path d b e s Hp Hn)
    as (k & (Hle & _ & Htaken) & Hres).
  exists k. split; [|done]. split; [done|].
  assert (k - s ≤ size fs); [|lia].
  apply (occupied_run_bound fs (candidate d b e) s); [apply _|].
  intros j Hj. apply Htaken. lia.
Qed.

(** X3: resolving the returned path again, on the same file system, returns
    it unchanged. *)
Theorem find_unique_filename_stable (fs : FileSys) (path : string) :
  _find_unique_filename fs (_find_unique_filename fs path)
  = _find_unique_filename fs path.
Proof. apply find_unique_free_path, find_unique_not_exists. Qed.

End resolver_more.

Lemma find_unique_filename_keeps_extension_witness :
  Py.endswith ".txt" (Resolver._find_unique_filename c4_fs "a.txt") = true
  ∧ Resolver._find_unique_filename c4_fs "a.txt" = "a (1).txt".
Proof.
  split.
  - apply (find_unique_filename_keeps_extension c4_fs "a.txt" "a" ".txt").
    vm_compute. reflexivity.
  - vm_compute. reflexivity.
Defined.

Lemma find_unique_filename_number_bound_witness :
  ∃ k, 1 ≤ k ≤ 1 + size c4_fs
       ∧ Resolver._find_unique_filename c4_fs "a.txt"
         = Resolver.candidate "" "a" ".txt" k.
Proof.
  apply (find_unique_filename_number_bound c4_fs "a.txt" "" "a" ".txt" 1).
  - vm_compute. by eexists.
  - vm_compute. reflexivity.
Defined.

(** ** The worker: names, keys and exits *)

Lemma lower_app (s t : string) : Py.lower (s +:+ t) = Py.lower s +:+ Py.lower t.
Proof.
  induction s as [|c s IH]; [done|].
  rewrite string_app_cons. cbn [Py.lower]. by rewrite IH.
Qed.

Lemma substring_app_prefix (s t : string) :
  String.substring 0 (String.length s) (s +:+ t) = s.
Proof.
  induction s as [|c s IH]; [by destruct t|].
  rewrite string_app_cons. cbn [String.length String.substring].
  by rewrite IH.
Qed.

Lemma removesuffix_app (s suf : string) : Py.removesuffix suf (s +:+ suf) = s.
Proof.
  unfold Py.removesuffix. rewrite endswith_app by apply endswith_refl.
  rewrite string_length_app.
  replace (String.length s + String.length suf - String.length suf)
    with (String.length s) by lia.
  apply substring_app_prefix.
Qed.

Section worker_more.
Context (env : Env) (keys_to_use : list string) (age_path : string).

Local Abbreviation recipients_path := (AgeWorker.recipients_path env).
Local Abbreviation decrypt_temp_path := (AgeWorker.decrypt_temp_path env).

Lemma output_path_base_age (p : string) :
  AgeWorker.output_path_base (p +:+ ".age") = p.
Proof.
  unfold AgeWorker.output_path_base. rewrite lower_app.
  rewrite endswith_app by done. apply removesuffix_app.
Qed.

(** X4: when the encrypt builder succeeds for [input_path], the command line
    is [age -a -o input_path.age -R <recipient list> input_path], and the
    decrypt output path of the file it names after [-o] is [input_path]
    again: decrypting what was encrypted gives the name back. *)
Theorem decrypt_name_inverts_encrypt_name
    (i : nat) (input_path : string) (st st' : State) (cmd : list string) :
  AgeWorker.build_encrypt env keys_to_use i input_path [age_path] st
  = (st', Ok cmd) →
  cmd = [age_path; "-a"; "-o"; input_path +:+ ".age"; "-R";
         recipients_path i input_path; input_path]
  ∧ AgeWorker.output_path_base (input_path +:+ ".age") = input_path.
Proof.
  intros Hb. split; [|apply output_path_base_age].
  revert Hb. unfold AgeWorker.build_encrypt, open_w.
  monad_unfold. state_simpl.
  repeat (case_match; simplify_eq; state_simpl); try done.
  all: by intros [= <- <-].
Qed.

Lemma popen_free_app (l1 l2 : list Event) :
  Forall (λ e, is_popen e = false) l1 → Forall (λ e, is_popen e = false) l2 →
  Forall (λ e, is_popen e = false) (l1 ++ l2).
Proof. intros. by apply Forall_app. Qed.

Lemma body_no_keys mode i p st :
  keys_to_use = [] →
  ∃ st1, AgeWorker.body env mode keys_to_use age_path i p st
         = (st1, Raise (no_keys_message mode))
         ∧ trace st1 = trace st ∧ fs st1 = fs st
         ∧ success_count st1 = success_count st.
Proof.
  intros Hk. unfold AgeWorker.body, AgeWorker.build_encrypt,
    AgeWorker.build_decrypt.
  monad_unfold. destruct mode; rewrite decide_True by done; state_simpl;
    by eexists.
Qed.

Lemma iteration_no_keys mode total i p st :
  keys_to_use = [] →
  ∃ evs,
    extends st (AgeWorker.iteration env mode keys_to_use age_path total i p st)
      evs
    ∧ Forall (λ e, is_popen e = false) evs
    ∧ signals evs = file_signals total i p (Failed (no_keys_message mode))
    ∧ success_count
        (AgeWorker.iteration env mode keys_to_use age_path total i p st)
      = success_count st.
Proof.
  intros Hk. rewrite iteration_unfold. cbv zeta.
  destruct (body_no_keys mode i p
              (emit (process_starting (Path.basename p)) st) Hk)
    as (st1 & -> & Ht & _ & Hc).
  cbn [fst snd].
  set (st3 := emit (progress_update (fraction total i)) _).
  destruct (cleanup_no_popen env mode st3) as (evs1 & Hext1 & Hnp).
  destruct (cleanup_spec env mode (λ _, True) st3) as
    (evs2 & Hext2 & Hsig & _ & Hcount & _); [done..|].
  assert (evs2 = evs1) as -> by (by eapply extends_unique).
  eexists. split_and!.
  - unfold extends in *. rewrite Hext1. unfold st3. state_simpl.
    rewrite Ht. state_simpl. by rewrite <-!app_assoc.
  - by repeat (apply Forall_cons; split; [done|]).
  - cbn [app]. unfold signals, file_signals in *.
    cbn [List.filter is_signal app]. by rewrite Hsig.
  - rewrite Hcount. unfold st3. state_simpl. by rewrite Hc.
Qed.

(** X5: a worker that was given no key never starts the engine: every file of
    the batch fails with the message that a key is required, and the run
    finishes with no success out of [N]. *)
Theorem run_without_keys_never_starts_engine
    (mode : Mode) (files : list string) (fs0 : FileSys) :
  keys_to_use = [] →
  Forall (λ e, is_popen e = false)
    (trace (AgeWorker.run env mode keys_to_use age_path files fs0))
  ∧ signals (trace (AgeWorker.run env mode keys_to_use age_path files fs0))
    = batch_signals (length files) 0 files
        (replicate (length files) (Failed (no_keys_message mode)))
      ++ [finished 0 (length files) (bool_decide (mode = encrypt))].
Proof.
  intros Hk.
  assert (∀ total fl i st,
    ∃ evs,
      extends st (AgeWorker.loop env mode keys_to_use age_path total i fl st)
        evs
      ∧ Forall (λ e, is_popen e = false) evs
      ∧ signals evs
        = batch_signals total i fl
            (replicate (length fl) (Failed (no_keys_message mode)))
      ∧ success_count
          (AgeWorker.loop env mode keys_to_use age_path total i fl st)
        = success_count st) as Hloop.
  { intros total fl. induction fl as [|p fl IH]; intros i st.
    - exists []. split_and!; try done. apply extends_refl.
    - cbn [AgeWorker.loop].
      destruct (iteration_no_keys mode total i p st Hk)
        as (evs1 & Hext1 & Hnp1 & Hsig1 & Hc1).
      destruct (IH (S i)
                  (AgeWorker.iteration env mode keys_to_use age_path
                     total i p st))
        as (evs2 & Hext2 & Hnp2 & Hsig2 & Hc2).
      exists (evs1 ++ evs2). split_and!.
      + by eapply extends_trans.
      + by apply popen_free_app.
      + rewrite signals_app, Hsig1, Hsig2. done.
      + by rewrite Hc2. }
  destruct (Hloop (length files) files 0 (AgeWorker.initial fs0))
    as (evs & Hext & Hnp & Hsig & Hc).
  unfold AgeWorker.run. cbv zeta. state_simpl.
  unfold extends in Hext. rewrite Hext, Hc. cbn [AgeWorker.initial trace
    success_count app]. split.
  - apply popen_free_app; [done|]. by repeat constructor.
  - by rewrite signals_app, Hsig.
Qed.

Lemma write_keys_missing (fs : FileSys) keys buf :
  (∀ k, k ∈ keys → fs !! k = None) →
  AgeWorker.write_keys env fs keys buf = (buf, Ok tt).
Proof.
  induction keys as [|k keys IH]; intros Hk; [done|].
  cbn [AgeWorker.write_keys].
  assert (path_exists fs k = false) as ->.
  { apply path_exists_false, Hk. left. }
  cbn [negb]. apply IH. intros k' Hk'. apply Hk. by right.
Qed.

Lemma body_events_of_iteration mode total i p st st2 r evsb :
  AgeWorker.body env mode keys_to_use age_path i p
    (emit (process_starting (Path.basename p)) st) = (st2, r) →
  trace st2 = (trace st ++ [process_starting (Path.basename p)]) ++ evsb →
  ∃ evsc,
    Forall (λ e, is_popen e = false) evsc
    ∧ extends st
        (AgeWorker.iteration env mode keys_to_use age_path total i p st)
        (process_starting (Path.basename p) :: evsb
         ++ match r with
            | Ok _ => []
            | Raise msg => [error (Path.basename p) msg]
            end ++ progress_update (fraction total i) :: evsc).
Proof.
  intros Hb Ht.
  destruct (iteration_trace env mode keys_to_use age_path total i p st)
    as (evsb' & evsc & Hextb & Hnp & Hext).
  rewrite Hb in Hextb. cbn [fst] in Hextb.
  assert (evsb' = evsb) as ->.
  { unfold extends in Hextb. state_simpl. rewrite Ht in Hextb.
    by apply app_inv_head in Hextb. }
  exists evsc. split; [done|]. unfold iteration_outcome in Hext.
  rewrite Hb in Hext. cbn [snd] in Hext. by destruct r.
Qed.

(** X6: an encrypt iteration none of whose key paths exists writes an empty
    recipient list, reports that no valid recipient key was provided and
    does not start the engine. *)
Theorem encrypt_without_key_files_never_starts_engine
    (total i : nat) (input_path : string) (st : State) :
  keys_to_use ≠ [] →
  (∀ k, k ∈ keys_to_use →
        fs st !! k = None ∧ k ≠ recipients_path i input_path) →
  open_error env (fs st) (recipients_path i input_path) = None →
  iteration_outcome env encrypt keys_to_use age_path i input_path st
  = Failed no_recipients_message
  ∧ ∃ evs,
      extends st
        (AgeWorker.iteration env encrypt keys_to_use age_path total i
           input_path st) evs
      ∧ Forall (λ e, is_popen e = false) evs.
Proof.
  intros Hne Hkeys Hopen.
  set (trf := recipients_path i input_path) in *.
  set (st0 := emit (process_starting (Path.basename input_path)) st).
  assert (∃ st2,
    AgeWorker.body env encrypt keys_to_use age_path i input_path st0
    = (st2, Raise no_recipients_message)
    ∧ trace st2 = trace st0 ++ [syscall (sys_open_w trf) (fs st)])
    as (st2 & Hb & Ht).
  { unfold AgeWorker.body, AgeWorker.build_encrypt, open_w, st0.
    monad_unfold. rewrite decide_False by done. state_simpl.
    fold trf. rewrite Hopen. state_simpl.
    rewrite write_keys_missing.
    2:{ intros k Hk. destruct (Hkeys k Hk) as [Hnone Hneq].
        by rewrite lookup_insert_ne. }
    state_simpl. unfold path_exists, getsize.
    rewrite lookup_insert_eq. cbn. by eexists. }
  split.
  - unfold iteration_outcome. fold st0. by rewrite Hb.
  - destruct (body_events_of_iteration encrypt total i input_path st st2 _ _
                Hb Ht) as (evsc & Hnp & Hext).
    eexists. split; [exact Hext|].
    apply Forall_cons. split; [done|]. apply popen_free_app.
    { by repeat constructor. }
    by repeat (apply Forall_cons; split; [done|]).
Qed.

(** X7: a successful decrypt moves the plaintext onto the resolved path: when
    the engine exits with code 0 and has left its output at the temporary
    path, the iteration succeeds, and the file system it leaves is the
    one the engine left with the temporary file renamed to the path the
    resolver returned for the intended output path, a path at which
    nothing was. *)
Theorem decrypt_success_moves_output
    (total i : nat) (input_path : string) (st : State)
    (err : string) (fs1 : FileSys) (nd : node) :
  keys_to_use ≠ [] →
  temp_recipients_file st = None →
  engine env i (decrypt_cmd env keys_to_use age_path input_path) (fs st)
  = Exited 0 err fs1 →
  fs1 !! decrypt_temp_path input_path = Some nd →
  (∀ fs src dst, rename_error env fs src dst = None) →
  let final :=
    Resolver._find_unique_filename fs1
      (AgeWorker.output_path_base input_path) in
  let st' :=
    AgeWorker.iteration env decrypt keys_to_use age_path total i
      input_path st in
  iteration_outcome env decrypt keys_to_use age_path i input_path st
  = Succeeded
  ∧ fs1 !! final = None
  ∧ fs st' = <[final := nd]> (delete (decrypt_temp_path input_path) fs1)
  ∧ success_count st' = S (success_count st).
Proof.
  intros Hne Htrf Heng Htemp Hren final st'.
  assert (fs1 !! final = None) as Hfree
    by apply Resolver_find_unique_not_exists.
  assert (final ≠ decrypt_temp_path input_path) as Hneq.
  { intros Heq. rewrite Heq in Hfree. congruence. }
  set (st0 := emit (process_starting (Path.basename input_path)) st).
  assert (∃ st2,
    AgeWorker.body env decrypt keys_to_use age_path i input_path st0
    = (st2, Ok tt)
    ∧ fs st2 = <[final := nd]> (delete (decrypt_temp_path input_path) fs1)
    ∧ temp_recipients_file st2 = None
    ∧ temp_decrypt_path st2 = Some (decrypt_temp_path input_path)
    ∧ success_count st2 = S (success_count st))
    as (st2 & Hb & Hfs & Htr & Htd & Hc).
  { unfold AgeWorker.body, AgeWorker.build_decrypt, AgeWorker.supervise,
      AgeWorker.on_exit, os_rename, st0.
    monad_unfold. state_simpl. rewrite decide_False by done. state_simpl.
    change (engine env i _ (fs st)) with
      (engine env i (decrypt_cmd env keys_to_use age_path input_path)
         (fs st)).
    rewrite Heng. state_simpl.
    destruct (decide (0%Z = 0%Z)); [|done]. cbv beta. state_simpl.
    assert (path_exists fs1 (decrypt_temp_path input_path) = true) as ->.
    { apply path_exists_true. by eexists. }
    state_simpl. rewrite Hren, Htemp. state_simpl. by eexists. }
  split_and!; [|done| |].
  - unfold iteration_outcome. fold st0. by rewrite Hb.
  - unfold st'. rewrite iteration_unfold. cbv zeta. fold st0.
    rewrite Hb. cbn [fst snd]. unfold AgeWorker.cleanup. state_simpl.
    rewrite Htr. state_simpl. rewrite Htd. state_simpl.
    assert (path_exists (fs st2) (decrypt_temp_path input_path) = false)
      as ->; [|by state_simpl].
    apply path_exists_false. rewrite Hfs.
    rewrite lookup_insert_ne by done. apply lookup_delete_eq.
  - unfold st'. rewrite iteration_unfold. cbv zeta. fold st0.
    rewrite Hb. cbn [fst snd]. unfold AgeWorker.cleanup. state_simpl.
    rewrite Htr. state_simpl. rewrite Htd. state_simpl.
    assert (path_exists (fs st2) (decrypt_temp_path input_path) = false)
      as ->; [|by state_simpl].
    apply path_exists_false. rewrite Hfs.
    rewrite lookup_insert_ne by done. apply lookup_delete_eq.
Qed.

Lemma detail_message_blank (return_code : Z) (stderr_output : string) :
  Py.strip stderr_output = "" →
  AgeWorker.detail_message return_code stderr_output
  = "Failed, exit code: " +:+ pretty return_code.
Proof. intros H. unfold AgeWorker.detail_message. by rewrite H. Qed.

(** X8: a decrypt whose engine exits with a code other than 0 fails with the
    message made from the standard error of the engine, which is the exit
    code when the standard error is blank; the file is not counted as a
    success. *)
Theorem decrypt_engine_failure_is_reported
    (total i : nat) (input_path : string) (st : State)
    (return_code : Z) (err : string) (fs1 : FileSys) :
  keys_to_use ≠ [] →
  engine env i (decrypt_cmd env keys_to_use age_path input_path) (fs st)
  = Exited return_code err fs1 →
  return_code ≠ 0%Z →
  iteration_outcome env decrypt keys_to_use age_path i input_path st
  = Failed (AgeWorker.detail_message return_code err)
  ∧ (Py.strip err = "" →
     AgeWorker.detail_message return_code err
     = "Failed, exit code: " +:+ pretty return_code)
  ∧ success_count
      (AgeWorker.iteration env decrypt keys_to_use age_path total i
         input_path st)
    = success_count st.
Proof.
  intros Hne Heng Hrc.
  set (st0 := emit (process_starting (Path.basename input_path)) st).
  assert (∃ st2,
    AgeWorker.body env decrypt keys_to_use age_path i input_path st0
    = (st2, Raise (AgeWorker.detail_message return_code err))
    ∧ success_count st2 = success_count st) as (st2 & Hb & Hc).
  { unfold AgeWorker.body, AgeWorker.build_decrypt, AgeWorker.supervise,
      AgeWorker.on_exit, st0.
    monad_unfold. state_simpl. rewrite decide_False by done. state_simpl.
    change (engine env i _ (fs st)) with
      (engine env i (decrypt_cmd env keys_to_use age_path input_path)
         (fs st)).
    rewrite Heng. state_simpl. rewrite decide_False by done.
    by eexists. }
  split_and!.
  - unfold iteration_outcome. fold st0. by rewrite Hb.
  - apply detail_message_blank.
  - rewrite iteration_unfold. cbv zeta. fold st0. rewrite Hb.
    cbn [fst snd].
    set (st3 := emit (progress_update _) _).
    destruct (cleanup_spec env decrypt (λ _, True) st3)
      as (evs & _ & _ & _ & -> & _); [done..|].
    unfold st3. by state_simpl.
Qed.

(** X9: a successful encrypt leaves nothing of its own behind: when the
    recipient list could be written from the key files and is not empty,
    the engine is run on [age -a -o input.age -R <list> input] with the
    list in place, and when it exits with code 0 the iteration succeeds
    and, provided [os.remove] does not fail, the file system it leaves is
    the one the engine left without the recipient list. *)
Theorem encrypt_success_removes_recipient_list
    (total i : nat) (input_path : string) (st : State)
    (buf err : string) (fs1 : FileSys) :
  keys_to_use ≠ [] →
  open_error env (fs st) (recipients_path i input_path) = None →
  AgeWorker.write_keys env
    (<[recipients_path i input_path := File ""]> (fs st)) keys_to_use ""
  = (buf, Ok tt) →
  buf ≠ "" →
  engine env i (encrypt_cmd env age_path i input_path)
    (<[recipients_path i input_path := File buf]>
       (<[recipients_path i input_path := File ""]> (fs st)))
  = Exited 0 err fs1 →
  (∀ fs p, remove_error env fs p = None) →
  let st' :=
    AgeWorker.iteration env encrypt keys_to_use age_path total i
      input_path st in
  iteration_outcome env encrypt keys_to_use age_path i input_path st
  = Succeeded
  ∧ fs st' = delete (recipients_path i input_path) fs1
  ∧ success_count st' = S (success_count st).
Proof.
  intros Hne Hopen Hw Hbuf Heng Hrm st'.
  set (trf := recipients_path i input_path) in *.
  set (st0 := emit (process_starting (Path.basename input_path)) st).
  assert (trf ≠ "") as Htrf by apply recipients_path_nonempty.
  assert (∃ st2,
    AgeWorker.body env encrypt keys_to_use age_path i input_path st0
    = (st2, Ok tt)
    ∧ fs st2 = fs1
    ∧ temp_recipients_file st2 = Some trf
    ∧ success_count st2 = S (success_count st))
    as (st2 & Hb & Hfs & Htr & Hc).
  { unfold AgeWorker.body, AgeWorker.build_encrypt, AgeWorker.supervise,
      AgeWorker.on_exit, open_w, st0.
    monad_unfold. rewrite decide_False by done. state_simpl.
    fold trf. rewrite Hopen. state_simpl. rewrite Hw. state_simpl.
    unfold path_exists, getsize. rewrite lookup_insert_eq.
    rewrite bool_decide_eq_true_2 by (by eexists).
    assert ((String.length buf =? 0) = false) as ->.
    { apply Nat.eqb_neq. by destruct buf. }
    cbn [andb negb]. state_simpl.
    change (engine env i _ _) with
      (engine env i (encrypt_cmd env age_path i input_path)
         (<[trf := File buf]> (<[trf := File ""]> (fs st)))).
    rewrite Heng. state_simpl.
    destruct (decide (0%Z = 0%Z)); [|done]. by eexists. }
  assert (fs st' = delete trf fs1 ∧ success_count st' = S (success_count st))
    as [? ?]; [|split_and!; try done].
  - unfold st'. rewrite iteration_unfold. cbv zeta. fold st0.
    rewrite Hb. cbn [fst snd]. unfold AgeWorker.cleanup, AgeWorker.try_remove,
      os_remove. monad_unfold. state_simpl. rewrite Htr. state_simpl.
    rewrite Hfs, bool_decide_eq_true_2 by done. cbn [andb].
    destruct (path_exists fs1 trf) eqn:Hex; state_simpl.
    + rewrite Hrm. by state_simpl.
    + rewrite Hfs. split; [|done]. symmetry. apply delete_id.
      by apply path_exists_false.
  - unfold iteration_outcome. fold st0. by rewrite Hb.
Qed.

End worker_more.

(** ** The worker theorems at work *)

Lemma decrypt_name_inverts_encrypt_name_witness :
  (AgeWorker.build_encrypt (os_env 77 None engine_encrypts) ["rcpt.pub"] 0
     "in/a.txt" ["age"] (AgeWorker.initial plain_fs)).2
  = Ok ["age"; "-a"; "-o"; "in/a.txt.age"; "-R";
        "in/.temp_recipients_77_0.txt"; "in/a.txt"]
  ∧ AgeWorker.output_path_base "in/a.txt.age" = "in/a.txt".
Proof.
  split; [vm_compute; reflexivity|].
  refine (proj2 (decrypt_name_inverts_encrypt_name
            (os_env 77 None engine_encrypts) ["rcpt.pub"] "age" 0 "in/a.txt"
            (AgeWorker.initial plain_fs)
            (AgeWorker.build_encrypt (os_env 77 None engine_encrypts)
               ["rcpt.pub"] 0 "in/a.txt" ["age"]
               (AgeWorker.initial plain_fs)).1
            ["age"; "-a"; "-o"; "in/a.txt.age"; "-R";
             "in/.temp_recipients_77_0.txt"; "in/a.txt"] _)).
  vm_compute. reflexivity.
Defined.

Lemma run_without_keys_never_starts_engine_witness :
  signals (trace (AgeWorker.run (os_env 77 None engine_decrypts) decrypt []
                    "age" ["in/a.age"; "in/b.age"] demo_fs))
  = [process_starting "a.age";
     error "a.age" "Decryption requires at least one identity key.";
     progress_update (fraction 2 0);
     process_starting "b.age";
     error "b.age" "Decryption requires at least one identity key.";
     progress_update (fraction 2 1);
     finished 0 2 false].
Proof.
  exact (proj2 (run_without_keys_never_starts_engine
                  (os_env 77 None engine_decrypts) [] "age" decrypt
                  ["in/a.age"; "in/b.age"] demo_fs eq_refl)).
Defined.

Lemma encrypt_without_key_files_never_starts_engine_witness :
  iteration_outcome (os_env 77 None engine_encrypts) encrypt ["gone.pub"]
    "age" 0 "in/a.txt" (AgeWorker.initial plain_fs)
  = Failed "No valid recipient public keys provided.".
Proof.
  refine (proj1 (encrypt_without_key_files_never_starts_engine
            (os_env 77 None engine_encrypts) ["gone.pub"] "age" 1 0
            "in/a.txt" (AgeWorker.initial plain_fs) _ _ _)).
  - discriminate.
  - intros k Hk. apply list_elem_of_singleton in Hk. subst k.
    split; [vm_compute; reflexivity|vm_compute; discriminate].
  - reflexivity.
Defined.

Lemma decrypt_success_moves_output_witness :
  iteration_outcome (os_env 77 None engine_decrypts) decrypt ["id.txt"]
    "age" 0 "in/a.age" (AgeWorker.initial demo_fs)
  = Succeeded
  ∧ fs (AgeWorker.iteration (os_env 77 None engine_decrypts) decrypt
          ["id.txt"] "age" 1 0 "in/a.age" (AgeWorker.initial demo_fs))
      !! "in/a" = Some (File "plaintext").
Proof.
  destruct (decrypt_success_moves_output
              (os_env 77 None engine_decrypts) ["id.txt"] "age" 1 0
              "in/a.age" (AgeWorker.initial demo_fs) ""
              (<["in/a.temp_decrypted_77" := File "plaintext"]> demo_fs)
              (File "plaintext"))
    as (Ho & _ & Hfs & _).
  - discriminate.
  - reflexivity.
  - vm_compute. reflexivity.
  - vm_compute. reflexivity.
  - reflexivity.
  - split; [exact Ho|]. rewrite Hfs. vm_compute. reflexivity.
Defined.

Lemma decrypt_engine_failure_is_reported_witness :
  iteration_outcome (os_env 77 None engine_rejects) decrypt ["id.txt"]
    "age" 0 "in/a.age" (AgeWorker.initial demo_fs)
  = Failed "age: error: no identity matched any of the recipients".
Proof.
  refine (proj1 (decrypt_engine_failure_is_reported
            (os_env 77 None engine_rejects) ["id.txt"] "age" 1 0
            "in/a.age" (AgeWorker.initial demo_fs) 1
            "age: error: no identity matched any of the recipients"
            demo_fs _ _ _)).
  - discriminate.
  - reflexivity.
  - discriminate.
Defined.

Lemma encrypt_success_removes_recipient_list_witness :
  fs (AgeWorker.iteration (os_env 77 None engine_encrypts) encrypt
        ["rcpt.pub"] "age" 1 0 "in/a.txt" (AgeWorker.initial plain_fs))
  = <["in/a.txt.age" := File "armored"]> plain_fs.
Proof.
  destruct (encrypt_success_removes_recipient_list
              (os_env 77 None engine_encrypts) ["rcpt.pub"] "age" 1 0
              "in/a.txt" (AgeWorker.initial plain_fs)
              ("age1qqq" +:+ nl) ""
              (<["in/a.txt.age" := File "armored"]>
                 (<["in/.temp_recipients_77_0.txt"
                    := File ("age1qqq" +:+ nl)]> plain_fs)))
    as (_ & Hfs & _).
  - discriminate.
  - reflexivity.
  - vm_compute. reflexivity.
  - discriminate.
  - vm_compute. reflexivity.
  - reflexivity.
  - rewrite Hfs. apply map_eq. intros p.
    vm_compute. reflexivity.
Defined.

(** ** The window: workers, drops and keys *)

Section gui_more.
Import AgeGUI.

Ltac gui_unfold :=
  unfold file_mode_not_pending, dropEvent, _on_files_dropped,
    _on_keys_dropped_in_key_mode, _on_finished, _clear_keys_action,
    _reset_state_ui, _load_key_settings, _save_key_settings, _start_process,
    _on_process_starting, report_error, set_mode, init in *.

Ltac gui_simpl :=
  cbn [keys recipients_keys files_to_process current_action_mode _key_pending
       drop_mode drop_text count_text drop_disabled status_text workers
       dialogs remember_keys saved_paths
       set_keys set_recipients_keys set_files_to_process
       set_current_action_mode set_key_pending set_drop_mode set_drop_text
       set_count_text set_drop_disabled set_status_text set_workers
       set_dialogs set_remember_keys set_saved_paths
       w_mode w_files w_keys w_age_path] in *.

Lemma reset_state_ui_ok clear_keys g :
  Forall worker_ok (workers g) → gui_ok (_reset_state_ui clear_keys g).
Proof.
  intros Hw. destruct (reset_state_ui_file_mode clear_keys g)
    as (Hm & Hp & Hws).
  split_and!.
  - by rewrite Hws.
  - intros Hk. by rewrite Hm in Hk.
  - by intros _.
Qed.

Ltac ok_start :=
  unfold gui_ok, awaiting_ok; gui_unfold; gui_simpl.

Lemma on_files_dropped_ok fs walk age_exe_path paths g :
  Forall worker_ok (workers g) → _key_pending g = false →
  drop_mode g = mode_file →
  gui_ok (_on_files_dropped fs walk age_exe_path paths g).
Proof.
  intros Hw Hp Hm. unfold _on_files_dropped. rewrite Hp.
  destruct (_get_files_recursive fs walk paths) as [|f files] eqn:Hfiles.
  { ok_start. split_and!; [done|by intros [=]|by intros [=]]. }
  set (collected := f :: files) in *.
  destruct (existsb is_age collected) eqn:Hany; cbn [andb];
    [destruct (forallb is_age collected) eqn:Hall; cbn [negb]|].
  - destruct (keys g) as [|k ks] eqn:Hk.
    + ok_start. rewrite Hk. gui_simpl. split_and!; [done| |by intros [=]].
      intros _ _. split; [done|]. by left.
    + ok_start. rewrite Hk. gui_simpl. split_and!; [|congruence|done].
      apply Forall_app. split; [done|].
      apply Forall_singleton. unfold worker_ok. gui_simpl.
      split_and!; [done|done|by left].
  - ok_start. split_and!; [done|by intros [=]|by intros [=]].
  - destruct (recipients_keys g) as [|k ks] eqn:Hk.
    + ok_start. rewrite Hk. gui_simpl. split_and!; [done| |by intros [=]].
      intros _ _. split; [done|]. by right.
    + ok_start. rewrite Hk. gui_simpl. split_and!; [|congruence|done].
      apply Forall_app. split; [done|].
      apply Forall_singleton. unfold worker_ok. gui_simpl.
      split_and!; [done|done|by right].
Qed.

Lemma on_keys_dropped_ok env fs age_exe_path paths g :
  gui_ok g → drop_mode g = mode_key →
  gui_ok (_on_keys_dropped_in_key_mode env fs age_exe_path paths g).
Proof.
  intros (Hw & Ha & Hf) Hm. unfold _on_keys_dropped_in_key_mode.
  destruct (_key_pending g) eqn:Hp; cbn [negb]; [|done].
  destruct (Ha Hm Hp) as (Hfiles & Hfits).
  set (key_type := if decide (current_action_mode g = Some encrypt)
                   then "public" else "private").
  set (candidates := List.filter _ paths).
  destruct (Path.basename <$> List.filter _ candidates) as [|bad bads].
  - destruct (List.filter _ candidates) as [|k ks] eqn:Hvalid.
    + ok_start. split_and!; [done|by intros [=]|by intros [=]].
    + assert (∃ m, current_action_mode g = Some m) as [m Hmode].
      { destruct Hfits as [[-> _]|[-> _]]; by eexists. }
      gui_simpl. rewrite Hmode.
      destruct m; ok_start; (split_and!; [|congruence|congruence]);
        (apply Forall_app; split; [done|]);
        apply Forall_singleton; unfold worker_ok; gui_simpl;
        (split_and!; [done|done|]);
        first [done | by rewrite <-Hmode | by rewrite Hmode in Hfits].
  - ok_start. split_and!; [done|done|congruence].
Qed.

Lemma gui_step_ok g g' : gui_ok g → gui_step g g' → gui_ok g'.
Proof.
  intros Hok Hstep. pose proof Hok as (Hw & Ha & Hf).
  destruct Hstep as [env fs walk age_exe_path urls g|file_name g
                    |file_name error_msg g|success total nc g|g|reply g].
  - unfold dropEvent.
    destruct (List.filter (path_exists fs) urls) as [|p paths]; [done|].
    destruct (reset_state_ui_file_mode false g) as (Hm & Hp & Hws).
    destruct (drop_mode g) eqn:Hdm.
    + rewrite Hdm. apply on_files_dropped_ok; auto.
    + rewrite Hdm. by apply on_keys_dropped_ok.
    + rewrite Hm. apply on_files_dropped_ok; rewrite ?Hws; auto.
    + rewrite Hm. apply on_files_dropped_ok; rewrite ?Hws; auto.
  - done.
  - done.
  - unfold _on_finished.
    repeat case_decide;
      try (apply reset_state_ui_ok; gui_unfold; gui_simpl; done);
      ok_start; (split_and!; [done|by intros [=]|by intros [=]]).
  - by apply reset_state_ui_ok.
  - unfold _clear_keys_action. destruct (recipients_keys g); [done|].
    destruct reply; [by apply reset_state_ui_ok|done].
Qed.

Lemma init_ok env fs remember paths : gui_ok (init env fs remember paths).
Proof.
  split_and!.
  - unfold init; gui_unfold; gui_simpl.
    repeat (case_match; gui_simpl); done.
  - unfold awaiting_ok, init; gui_unfold; gui_simpl.
    repeat (case_match; gui_simpl); done.
  - apply reachable_invariant, reach_init.
Qed.

(** X10: every worker the window ever starts has at least one key and at
    least one file, and its files fit its mode: all of them end in
    [.age] for a decrypt, none of them does for an encrypt.  No worker is
    started on a mixed or empty batch or without a key. *)
Theorem started_workers_are_well_formed (g : Gui) :
  reachable g → Forall worker_ok (workers g).
Proof.
  intros Hr. enough (gui_ok g) as (? & _); [done|].
  induction Hr as [env fs remember paths|g g' _ IH Hstep].
  - apply init_ok.
  - by eapply gui_step_ok.
Qed.

(** X11: a drop in which no file is found (the paths are hidden, or folders
    without a visible file), on a window in any state it can reach other
    than the one where it awaits a key, is rejected: the drop target
    shows "No valid .age files found.", the status is "Operation
    terminated.", and no worker is started. *)
Theorem empty_drop_is_rejected
    (env : Env) (fs : FileSys) (walk : string → list (string * list string))
    (age_exe_path : string) (urls : list string) (g : Gui) :
  reachable g →
  drop_mode g ≠ mode_key →
  List.filter (path_exists fs) urls ≠ [] →
  _get_files_recursive fs walk (List.filter (path_exists fs) urls) = [] →
  workers (dropEvent env fs walk age_exe_path urls g) = workers g
  ∧ drop_mode (dropEvent env fs walk age_exe_path urls g) = mode_error
  ∧ drop_text (dropEvent env fs walk age_exe_path urls g)
    = DROP_ERROR ERROR_DECRYPT_MULTI
  ∧ status_text (dropEvent env fs walk age_exe_path urls g)
    = STATUS_TERMINATED.
Proof.
  intros Hr Hmode Hne Hnone. apply reachable_invariant in Hr.
  unfold dropEvent.
  destruct (List.filter (path_exists fs) urls) as [|p paths] eqn:Hpaths;
    [done|].
  destruct (reset_state_ui_file_mode false g) as (Hm & Hp & Hw).
  assert (∀ g0, _key_pending g0 = false →
            _on_files_dropped fs walk age_exe_path (p :: paths) g0
            = set_status_text STATUS_TERMINATED
                (set_mode mode_error ERROR_DECRYPT_MULTI None g0)) as Hdrop.
  { intros g0 Hp0. unfold _on_files_dropped. by rewrite Hp0, Hnone. }
  destruct (drop_mode g) eqn:Hdm; try done.
  - rewrite Hdm, Hdrop by auto. done.
  - rewrite Hm, Hdrop by auto. split; [|done]. by rewrite <-Hw.
  - rewrite Hm, Hdrop by auto. split; [|done]. by rewrite <-Hw.
Qed.

(** *** Collecting files *)

Lemma split_slash_plain (f : string) :
  Path.basename f = f → Path.split_slash f = ("", f).
Proof.
  unfold Path.basename. intros Hb.
  pose proof (split_slash_app f) as Happ.
  destruct (Path.split_slash f) as [h t]. cbn [fst snd] in *. subst t.
  assert (String.length h = 0) as Hlen.
  { apply (f_equal String.length) in Happ.
    rewrite string_length_app in Happ. lia. }
  by destruct h.
Qed.

Lemma split_slash_after_slash (a f : string) :
  Path.basename f = f →
  Path.split_slash (a +:+ "/" +:+ f) = (a +:+ "/", f).
Proof.
  intros Hf. apply split_slash_plain in Hf.
  induction a as [|c a IH].
  - change ("" +:+ "/" +:+ f) with (String "/" f).
    cbn [Path.split_slash]. rewrite Hf. by rewrite decide_True.
  - rewrite string_app_cons. cbn [Path.split_slash]. rewrite IH.
    by destruct a.
Qed.

Lemma endswith_slash_inv (a : string) :
  Py.endswith "/" a = true → ∃ a', a = a' +:+ "/".
Proof.
  unfold Py.endswith. intros H.
  destruct (String.rev a) as [|c r] eqn:Hrev; [done|].
  cbn in H. case_decide; [subst c|done].
  exists (String.rev r).
  rewrite <-(string_rev_involutive a), Hrev. apply string_rev_cons.
Qed.

Lemma basename_join (root f : string) :
  Path.basename f = f → Path.basename (Path.join root f) = f.
Proof.
  intros Hf. unfold Path.join.
  assert (Py.startswith "/" f = false) as ->.
  { apply split_slash_plain in Hf. destruct f as [|c f]; [done|].
    cbn [Py.startswith]. case_decide; [subst c|done].
    cbn [Path.split_slash] in Hf.
    destruct (Path.split_slash f) as [[|] ?]; [|done].
    by rewrite decide_True in Hf. }
  case_decide; [done|].
  destruct (Py.endswith "/" root) eqn:Hend.
  - apply endswith_slash_inv in Hend as [a' ->].
    rewrite string_app_assoc. unfold Path.basename.
    by rewrite split_slash_after_slash.
  - unfold Path.basename. by rewrite split_slash_after_slash.
Qed.

(** X12: No file [_get_files_recursive] collects has a name that starts with
    a dot, given that the file names [os.walk] yields are bare names. *)
Theorem collected_files_are_not_hidden
    (fs : FileSys) (walk : string → list (string * list string))
    (paths : list string) (p : string) :
  (∀ path root files f,
     (root, files) ∈ walk path → f ∈ files → Path.basename f = f) →
  p ∈ _get_files_recursive fs walk paths →
  hidden (Path.basename p) = false.
Proof.
  intros Hwalk. unfold _get_files_recursive.
  rewrite list_elem_of_In, in_flat_map. intros (path & _ & Hp).
  destruct (hidden (Path.basename path)) eqn:Hh; [done|].
  destruct (isfile fs path).
  { destruct Hp as [<-|[]]. done. }
  destruct (isdir fs path); [|done].
  apply in_flat_map in Hp as ([root files] & Hrf & Hp).
  apply list_elem_of_In, list_elem_of_fmap in Hp as (f & -> & Hf).
  apply list_elem_of_In, filter_In in Hf as [Hf Hvis].
  rewrite basename_join.
  - by destruct (hidden f).
  - eapply Hwalk; by apply list_elem_of_In.
Qed.

(** *** Key files *)

Lemma startswith_age1_not_secret (line : string) :
  Py.startswith "age1" line = true →
  Py.startswith "AGE-SECRET-KEY-" line = false.
Proof.
  destruct line as [|c line]; [done|]. cbn [Py.startswith].
  repeat case_decide; by subst.
Qed.

(** X13: No key file is accepted both as a public and as a private key. *)
Theorem key_file_is_never_both
    (env : Env) (fs : FileSys) (file_path : string) :
  _validate_key_file env fs file_path "public" = true →
  _validate_key_file env fs file_path "private" = false.
Proof.
  unfold _validate_key_file.
  destruct (read_text env fs file_path) as [text|]; [|done].
  destruct (content_lines text) as [|first_line rest]; [done|].
  rewrite !decide_True by done.
  rewrite (decide_False (P := "private" = "public")) by done.
  apply startswith_age1_not_secret.
Qed.

Lemma contains_nl_cons c (line : string) :
  Py.contains nl (String c line) = false →
  c ≠ "010"%char ∧ Py.contains nl line = false.
Proof.
  cbn [Py.contains nl Py.startswith]. case_decide; [done|].
  cbn [orb]. intros ->. split; [congruence|done].
Qed.

Lemma readlines_line (line text : string) :
  Py.contains nl line = false →
  Py.readlines (line +:+ nl +:+ text) = (line +:+ nl) :: Py.readlines text.
Proof.
  induction line as [|c line IH]; intros Hc.
  - change ("" +:+ nl +:+ text) with (String "010" text).
    cbn [Py.readlines]. by rewrite decide_True.
  - apply contains_nl_cons in Hc as [Hc Hline].
    rewrite !string_app_cons. cbn [Py.readlines].
    rewrite decide_False by done. by rewrite IH.
Qed.

Lemma lstrip_keeps_last (y : string) (c : ascii) :
  Py.isspace c = false → ∃ y', Py.lstrip (y +:+ String c "") = y' +:+ String c "".
Proof.
  intros Hc. induction y as [|d y IH].
  - exists "". change ("" +:+ ?x) with x. cbn [Py.lstrip]. by rewrite Hc.
  - rewrite string_app_cons. cbn [Py.lstrip].
    destruct (Py.isspace d); [done|]. by exists (String d y).
Qed.

Lemma strip_comment (rest : string) :
  Py.startswith "#" (Py.strip (String "#" rest)) = true.
Proof.
  unfold Py.strip, Py.rstrip. change (Py.lstrip (String "#" rest))
    with (String "#" rest).
  rewrite string_rev_cons.
  destruct (lstrip_keeps_last (String.rev rest) "#" eq_refl) as [y' ->].
  by rewrite string_rev_app.
Qed.

(** X14: a first line that is a comment does not change the verdict on a key
    file: the verdict on the text with the comment line before it is the
    verdict on the text. *)
Theorem leading_comment_line_is_ignored
    (env : Env) (fs1 fs2 : FileSys) (file_path key_type : string)
    (comment text : string) :
  Py.contains nl comment = false →
  read_text env fs1 file_path = Ok (String "#" comment +:+ nl +:+ text) →
  read_text env fs2 file_path = Ok text →
  _validate_key_file env fs1 file_path key_type
  = _validate_key_file env fs2 file_path key_type.
Proof.
  intros Hc H1 H2. unfold _validate_key_file. rewrite H1, H2.
  assert (content_lines (String "#" comment +:+ nl +:+ text)
          = content_lines text) as ->; [|done].
  unfold content_lines. rewrite readlines_line.
  - cbn [List.filter].
    change (String "#" comment +:+ nl) with (String "#" (comment +:+ nl)).
    rewrite strip_comment. by rewrite andb_false_r.
  - cbn [Py.contains nl Py.startswith]. by rewrite decide_False.
Qed.

(** *** The remembered keys *)

Lemma contains_semicolon_cons c (k : string) :
  Py.contains ";" (String c k) = false →
  c ≠ ";"%char ∧ Py.contains ";" k = false.
Proof.
  cbn [Py.contains Py.startswith]. case_decide; [done|].
  cbn [orb]. intros ->. split; [congruence|done].
Qed.

Lemma split_char_plain (k : string) :
  Py.contains ";" k = false → split_char ";" k = [k].
Proof.
  induction k as [|c k IH]; [done|].
  intros [Hc Hk]%contains_semicolon_cons. cbn [split_char].
  rewrite decide_False by done. by rewrite IH.
Qed.

Lemma split_char_app (k rest : string) :
  Py.contains ";" k = false →
  split_char ";" (k +:+ ";" +:+ rest) = k :: split_char ";" rest.
Proof.
  induction k as [|c k IH].
  - intros _. change ("" +:+ ";" +:+ rest) with (String ";" rest).
    cbn [split_char]. by rewrite decide_True.
  - intros [Hc Hk]%contains_semicolon_cons. rewrite string_app_cons.
    cbn [split_char]. rewrite decide_False by done. by rewrite IH.
Qed.

Lemma split_join (ks : list string) :
  ks ≠ [] → Forall (λ k, Py.contains ";" k = false) ks →
  split_char ";" (join_sep ";" ks) = ks.
Proof.
  induction ks as [|k ks IH]; [done|]. intros _ Hks.
  apply Forall_cons in Hks as [Hk Hks].
  destruct ks as [|k' ks].
  - by apply split_char_plain.
  - change (join_sep ";" (k :: k' :: ks))
      with (k +:+ ";" +:+ join_sep ";" (k' :: ks)).
    rewrite split_char_app by done. by rewrite IH.
Qed.

(** X15: the keys saved with "remember" are the keys loaded at the next
    start, in the same order, provided none of their paths contains a
    semicolon or is empty, each still exists and each still holds a
    public key; the status then tells how many were loaded. *)
Theorem saved_keys_are_loaded_back
    (env : Env) (fs : FileSys) (ks : list string) (g : Gui) :
  ks ≠ [] →
  Forall (λ k, Py.contains ";" k = false ∧ k ≠ ""
               ∧ path_exists fs k = true
               ∧ _validate_key_file env fs k "public" = true) ks →
  recipients_keys
    (_load_key_settings env fs (_save_key_settings ks true g)) = ks
  ∧ status_text
      (_load_key_settings env fs (_save_key_settings ks true g))
    = STATUS_LOADED_KEYS (length ks).
Proof.
  intros Hne Hks. unfold _load_key_settings, _save_key_settings.
  gui_simpl. rewrite split_join.
  2: done.
  2:{ eapply Forall_impl; [exact Hks|]. by intros k (? & _). }
  assert (List.filter
            (λ p, path_exists fs p && negb (bool_decide (p = ""))
                  && _validate_key_file env fs p "public") ks = ks) as ->.
  { clear Hne. induction Hks as [|k ks (_ & Hk & He & Hv) _ IH]; [done|].
    cbn [List.filter]. rewrite He, Hv, bool_decide_eq_false_2 by done.
    cbn [andb negb]. by rewrite IH. }
  destruct ks; [done|]. by gui_simpl.
Qed.

(** *** The end of a batch *)

(** X16: whatever a batch reported, when it has finished the window holds no
    key of the batch and no file any more, keeps its recipient keys and
    its workers, and accepts drops again. *)
Theorem finished_batch_forgets_its_keys
    (success total : nat) (needs_clear : bool) (g : Gui) :
  keys (_on_finished success total needs_clear g) = []
  ∧ files_to_process (_on_finished success total needs_clear g) = []
  ∧ recipients_keys (_on_finished success total needs_clear g)
    = recipients_keys g
  ∧ saved_paths (_on_finished success total needs_clear g) = saved_paths g
  ∧ drop_disabled (_on_finished success total needs_clear g) = false
  ∧ workers (_on_finished success total needs_clear g) = workers g.
Proof.
  unfold _on_finished. repeat case_decide; gui_unfold; gui_simpl; done.
Qed.

(** X17: after a batch in which a file failed, or that reported no file at
    all, the window is back in file mode at once: the drop target shows
    the prompt for files and the status is "Ready", not the error that
    was set just before; after a batch without failure the drop target
    shows that the operation is complete. *)
Theorem failed_batch_returns_to_file_mode
    (success total : nat) (needs_clear : bool) (g : Gui) :
  (total = 0 ∨ success ≠ total →
   drop_mode (_on_finished success total needs_clear g) = mode_file
   ∧ drop_text (_on_finished success total needs_clear g) = DROP_FILE_ENCRYPT
   ∧ status_text (_on_finished success total needs_clear g)
     = STATUS_READY (pretty (length (recipients_keys g)))
   ∧ current_action_mode (_on_finished success total needs_clear g) = None
   ∧ _key_pending (_on_finished success total needs_clear g) = false)
  ∧ (total ≠ 0 → success = total →
     drop_mode (_on_finished success total needs_clear g) = mode_finished
     ∧ current_action_mode (_on_finished success total needs_clear g)
       = current_action_mode g).
Proof.
  unfold _on_finished. split.
  - intros Hfail. repeat case_decide; gui_unfold; gui_simpl;
      first [done | lia | by destruct Hfail].
  - intros Ht Hs. repeat case_decide; gui_unfold; gui_simpl; done.
Qed.

(** *** Dropping keys *)

(** X18: one invalid key file among the dropped files rejects the whole drop:
    no worker is started, the window keeps awaiting keys in key mode with
    the keys, the recipient keys and the settings it had, a message box
    is shown and the status is "Key load failed." *)
Theorem invalid_key_rejects_the_drop
    (env : Env) (fs : FileSys) (age_exe_path : string)
    (paths : list string) (g : Gui) (bad : string) :
  _key_pending g = true →
  bad ∈ paths → path_exists fs bad = true → isfile fs bad = true →
  _validate_key_file env fs bad
    (if decide (current_action_mode g = Some encrypt)
     then "public" else "private") = false →
  let g' := _on_keys_dropped_in_key_mode env fs age_exe_path paths g in
  workers g' = workers g ∧ keys g' = keys g
  ∧ recipients_keys g' = recipients_keys g
  ∧ saved_paths g' = saved_paths g ∧ remember_keys g' = remember_keys g
  ∧ _key_pending g' = true ∧ drop_mode g' = mode_key
  ∧ status_text g' = STATUS_KEY_LOAD_FAIL
  ∧ length (dialogs g') = S (length (dialogs g)).
Proof.
  intros Hp Hin Hex Hfile Hbad g'. unfold g'. clear g'.
  unfold _on_keys_dropped_in_key_mode.
  rewrite Hp. cbn [negb].
  set (key_type := if decide (current_action_mode g = Some encrypt)
                   then "public" else "private") in *.
  set (candidates := List.filter _ paths).
  assert (bad ∈ List.filter
                  (λ p, negb (_validate_key_file env fs p key_type))
                  candidates) as Hbads.
  { apply list_elem_of_In, filter_In. split.
    - apply filter_In. split; [by apply list_elem_of_In|].
      by rewrite Hex, Hfile.
    - by rewrite Hbad. }
  destruct (List.filter _ candidates) as [|b bs]; [by inversion Hbads|].
  cbn [fmap list_fmap]. gui_unfold; gui_simpl.
  split_and!; try done. rewrite length_app. cbn. lia.
Qed.

(** X19: when every file dropped in key mode is a valid key of the required
    type, a worker is started with exactly these keys on the files the
    window holds.  For an encrypt the keys become the recipient keys and
    are saved to the settings; for a decrypt neither the recipient keys
    nor the settings change: the paths of identity files are not
    kept. *)
Theorem valid_keys_start_the_worker
    (env : Env) (fs : FileSys) (age_exe_path : string)
    (paths : list string) (g : Gui) (m : Mode) :
  _key_pending g = true →
  current_action_mode g = Some m →
  paths ≠ [] →
  Forall (λ p, path_exists fs p = true ∧ isfile fs p = true
               ∧ _validate_key_file env fs p
                   (if decide (m = encrypt) then "public" else "private")
                 = true) paths →
  let g' := _on_keys_dropped_in_key_mode env fs age_exe_path paths g in
  workers g'
  = workers g ++ [{| w_mode := Some m; w_files := files_to_process g;
                     w_keys := paths; w_age_path := age_exe_path |}]
  ∧ _key_pending g' = false
  ∧ match m with
    | encrypt => recipients_keys g' = paths
                 ∧ saved_paths g' = join_sep ";" paths
                 ∧ remember_keys g' = true
    | decrypt => recipients_keys g' = recipients_keys g
                 ∧ saved_paths g' = saved_paths g
                 ∧ remember_keys g' = remember_keys g
    end.
Proof.
  intros Hp Hmode Hne Hall g'. unfold g'. clear g'.
  unfold _on_keys_dropped_in_key_mode.
  rewrite Hp. cbn [negb]. rewrite Hmode.
  assert ((if decide (Some m = Some encrypt) then "public" else "private")
          = (if decide (m = encrypt) then "public" else "private")) as ->.
  { destruct m; by repeat case_decide. }
  set (key_type := if decide (m = encrypt) then "public" else "private") in *.
  assert (List.filter (λ p, path_exists fs p && isfile fs p) paths = paths)
    as ->.
  { clear Hne. induction Hall as [|p ps (He & Hf & _) _ IH]; [done|].
    cbn [List.filter]. rewrite He, Hf. cbn [andb]. by rewrite IH. }
  assert (List.filter (λ p, _validate_key_file env fs p key_type) paths
          = paths) as ->.
  { clear Hne. induction Hall as [|p ps (_ & _ & Hv) _ IH]; [done|].
    cbn [List.filter]. rewrite Hv. by rewrite IH. }
  assert (List.filter (λ p, negb (_validate_key_file env fs p key_type))
            paths = []) as ->.
  { clear Hne. induction Hall as [|p ps (_ & _ & Hv) _ IH]; [done|].
    cbn [List.filter]. rewrite Hv. cbn [negb]. by rewrite IH. }
  cbn [fmap list_fmap]. destruct paths as [|k ks]; [done|].
  destruct m; gui_unfold; gui_simpl; rewrite ?Hmode; gui_simpl;
    by rewrite ?Hmode.
Qed.

End gui_more.

(** ** The window theorems at work *)

Lemma started_workers_are_well_formed_witness :
  AgeGUI.workers
    (AgeGUI.dropEvent (os_env 7 None engine_missing) folder_fs folder_walk
       "age" ["in"]
       (AgeGUI.init (os_env 7 None engine_missing) folder_fs true "rcpt.pub"))
  = [{| AgeGUI.w_mode := Some encrypt; AgeGUI.w_files := ["in/a.txt"];
        AgeGUI.w_keys := ["rcpt.pub"]; AgeGUI.w_age_path := "age" |}]
  ∧ Forall worker_ok
      (AgeGUI.workers
         (AgeGUI.dropEvent (os_env 7 None engine_missing) folder_fs
            folder_walk "age" ["in"]
            (AgeGUI.init (os_env 7 None engine_missing) folder_fs true
               "rcpt.pub"))).
Proof.
  split; [vm_compute; reflexivity|].
  apply started_workers_are_well_formed.
  eapply reach_step; [apply reach_init|apply step_drop].
Defined.

Lemma empty_drop_is_rejected_witness :
  AgeGUI.drop_text
    (AgeGUI.dropEvent (os_env 7 None engine_missing) folder_fs folder_walk
       "age" ["in/.secret"]
       (AgeGUI.init (os_env 7 None engine_missing) folder_fs false ""))
  = "Error: No valid .age files found.".
Proof.
  destruct (empty_drop_is_rejected (os_env 7 None engine_missing) folder_fs
              folder_walk "age" ["in/.secret"]
              (AgeGUI.init (os_env 7 None engine_missing) folder_fs false ""))
    as (_ & _ & Htext & _).
  - apply reach_init.
  - vm_compute. discriminate.
  - vm_compute. discriminate.
  - vm_compute. reflexivity.
  - exact Htext.
Defined.

Lemma collected_files_are_not_hidden_witness :
  AgeGUI._get_files_recursive folder_fs folder_walk ["in"] = ["in/a.txt"]
  ∧ AgeGUI.hidden (Path.basename "in/a.txt") = false.
Proof.
  split; [vm_compute; reflexivity|].
  apply (collected_files_are_not_hidden folder_fs folder_walk ["in"]).
  - intros path root files f Hrf Hf. unfold folder_walk in Hrf.
    case_decide; [|by apply elem_of_nil in Hrf].
    apply list_elem_of_singleton in Hrf. simplify_eq.
    apply elem_of_cons in Hf as [->|Hf]; [reflexivity|].
    apply list_elem_of_singleton in Hf. subst f. reflexivity.
  - vm_compute. left.
Defined.

Lemma key_file_is_never_both_witness :
  AgeGUI._validate_key_file (os_env 7 None engine_missing) plain_fs
    "rcpt.pub" "private" = false.
Proof.
  apply (key_file_is_never_both (os_env 7 None engine_missing) plain_fs
           "rcpt.pub").
  vm_compute. reflexivity.
Defined.

Lemma leading_comment_line_is_ignored_witness :
  AgeGUI._validate_key_file (os_env 7 None engine_missing) keygen_fs
    "key.txt" "private"
  = AgeGUI._validate_key_file (os_env 7 None engine_missing) bare_key_fs
      "key.txt" "private".
Proof.
  apply (leading_comment_line_is_ignored (os_env 7 None engine_missing)
           keygen_fs bare_key_fs "key.txt" "private" " created: 2024"
           ("AGE-SECRET-KEY-1QQQ" +:+ nl)).
  - vm_compute. reflexivity.
  - vm_compute. reflexivity.
  - vm_compute. reflexivity.
Defined.

Lemma saved_keys_are_loaded_back_witness :
  AgeGUI.recipients_keys
    (AgeGUI._load_key_settings (os_env 7 None engine_missing) plain_fs
       (AgeGUI._save_key_settings ["rcpt.pub"] true
          (AgeGUI.init (os_env 7 None engine_missing) plain_fs false "")))
  = ["rcpt.pub"].
Proof.
  refine (proj1 (saved_keys_are_loaded_back (os_env 7 None engine_missing)
                   plain_fs ["rcpt.pub"]
                   (AgeGUI.init (os_env 7 None engine_missing) plain_fs
                      false "") _ _)).
  - discriminate.
  - apply Forall_singleton. split_and!.
    + vm_compute. reflexivity.
    + discriminate.
    + vm_compute. reflexivity.
    + vm_compute. reflexivity.
Defined.

Lemma failed_batch_returns_to_file_mode_witness :
  AgeGUI.drop_mode (AgeGUI._on_finished 1 2 false awaiting_identity)
  = AgeGUI.mode_file
  ∧ AgeGUI.status_text (AgeGUI._on_finished 1 2 false awaiting_identity)
    = "Ready. Recipient Keys: 0.".
Proof.
  destruct (proj1 (failed_batch_returns_to_file_mode 1 2 false
                     awaiting_identity)) as (Hm & _ & Hs & _).
  - right. discriminate.
  - split; [exact Hm|]. rewrite Hs. vm_compute. reflexivity.
Defined.

Lemma invalid_key_rejects_the_drop_witness :
  AgeGUI.workers
    (AgeGUI._on_keys_dropped_in_key_mode (os_env 7 None engine_missing)
       demo_fs "age" ["id.txt"; "in/b.age"] awaiting_identity) = []
  ∧ AgeGUI.status_text
      (AgeGUI._on_keys_dropped_in_key_mode (os_env 7 None engine_missing)
         demo_fs "age" ["id.txt"; "in/b.age"] awaiting_identity)
    = "Key load failed.".
Proof.
  destruct (invalid_key_rejects_the_drop (os_env 7 None engine_missing)
              demo_fs "age" ["id.txt"; "in/b.age"] awaiting_identity
              "in/b.age")
    as (Hw & _ & _ & _ & _ & _ & _ & Hs & _).
  - vm_compute. reflexivity.
  - right. left.
  - vm_compute. reflexivity.
  - vm_compute. reflexivity.
  - vm_compute. reflexivity.
  - split; [rewrite Hw; vm_compute; reflexivity|exact Hs].
Defined.

Lemma valid_keys_start_the_worker_witness :
  AgeGUI.workers
    (AgeGUI._on_keys_dropped_in_key_mode (os_env 7 None engine_missing)
       demo_fs "age" ["id.txt"] awaiting_identity)
  = [{| AgeGUI.w_mode := Some decrypt; AgeGUI.w_files := ["in/a.age"];
        AgeGUI.w_keys := ["id.txt"]; AgeGUI.w_age_path := "age" |}]
  ∧ AgeGUI.saved_paths
      (AgeGUI._on_keys_dropped_in_key_mode (os_env 7 None engine_missing)
         demo_fs "age" ["id.txt"] awaiting_identity) = "".
Proof.
  destruct (valid_keys_start_the_worker (os_env 7 None engine_missing)
              demo_fs "age" ["id.txt"] awaiting_identity decrypt)
    as (Hw & _ & _ & Hs & _).
  - vm_compute. reflexivity.
  - vm_compute. reflexivity.
  - discriminate.
  - apply Forall_singleton. split_and!; vm_compute; reflexivity.
  - split; [rewrite Hw|rewrite Hs]; vm_compute; reflexivity.
Defined.

(** ** The worker and the window together *)

Lemma deliver_errors_signals (evs : list Event) (g : AgeGUI.Gui) :
  deliver_errors (signals evs) g = deliver_errors evs g.
Proof.
  revert g. induction evs as [|e evs IH]; intros g; [done|].
  unfold signals in *. cbn [List.filter].
  destruct e; cbn [is_signal deliver_errors foldl]; apply IH.
Qed.

(** X20: a file whose engine invocation times out gets exactly one
    message box, and it carries the timeout text of the window, not the
    text for a failed age command: the message the worker raises contains
    the words the window looks for. *)
Theorem timeout_shows_the_timeout_dialog
    (env : Env) (mode : Mode) (keys_to_use : list string) (age_path : string)
    (total i : nat) (input_path : string) (st : State) (evs : list Event)
    (g : AgeGUI.Gui) :
  (∀ c fs, ∃ err fs', engine env i c fs = TimedOut err fs') →
  extends st
    (AgeWorker.iteration env mode keys_to_use age_path total i input_path st)
    evs →
  (∃ cmd, popen cmd ∈ evs) →
  AgeGUI.dialogs (deliver_errors evs g)
  = AgeGUI.dialogs g ++ [timeout_dialog (Path.basename input_path)].
Proof.
  intros Heng Hext Hpopen.
  destruct (iteration_timeout env mode keys_to_use age_path total i input_path
              st evs Heng Hext Hpopen) as [Ho _].
  destruct (iteration_spec env mode keys_to_use age_path (λ _, True) total i
              input_path st) as (evs' & Hext' & Hsig & _); [done..|].
  assert (evs' = evs) as -> by (by eapply extends_unique).
  rewrite <-deliver_errors_signals, Hsig, Ho. reflexivity.
Qed.

Lemma timeout_shows_the_timeout_dialog_witness :
  AgeGUI.dialogs
    (deliver_errors
       (trace (AgeWorker.iteration (os_env 77 None engine_hangs) decrypt
                 ["id.txt"] "age" 2 0 "in/a.age" (AgeWorker.initial demo_fs)))
       awaiting_identity)
  = [timeout_dialog "a.age"].
Proof.
  apply (timeout_shows_the_timeout_dialog (os_env 77 None engine_hangs)
           decrypt ["id.txt"] "age" 2 0 "in/a.age"
           (AgeWorker.initial demo_fs)
           (trace (AgeWorker.iteration (os_env 77 None engine_hangs) decrypt
                     ["id.txt"] "age" 2 0 "in/a.age"
                     (AgeWorker.initial demo_fs)))
           awaiting_identity).
  - intros c fs. unfold os_env, engine_hangs. simpl.
    destruct (c !! 3); eauto.
  - exact eq_refl.
  - exists (decrypt_cmd (os_env 77 None engine_hangs) ["id.txt"] "age"
              "in/a.age").
    vm_compute. repeat constructor.
Defined.
